(** * NeuTex [models/base_model.py]: the [BaseModel] lifecycle manager

    A shallow embedding of the class [BaseModel] and the properties of its
    methods.  Python objects that are shared and mutated (parameters,
    optimizers, schedulers, the file system, standard output) live in an
    explicit [world]; every method is a computation in a state-and-exception
    monad over that world and takes [self] as its first argument, as the
    Python methods do.

    Modelled: [initialize], [setup], the three registry getters,
    [freeze_subnetworks] and [unfreeze_subnetworks], the four checkpoint
    methods, [print_networks], [set_requires_grad] and
    [update_learning_rate].  Of torch, what
    these methods call: [state_dict], [load_state_dict], [requires_grad_],
    [torch.save], [torch.load] and a scheduler's [step]; [get_scheduler],
    from [models/networks.py], is a parameter of [setup]. *)

From Stdlib Require Import Ascii String QArith.
From stdpp Require Import base strings list gmap functions pretty.

Open Scope string_scope.
Open Scope nat_scope.
Open Scope list_scope.

(** ** Python values *)

(** Exceptions the modelled code can meet.  All of them are subclasses of
    Python's [Exception], so an [except Exception] clause catches each. *)
Inductive exn : Type :=
  | AssertionError
  | AttributeError (attr : string)
  | KeyError (key : string)
  | IndexError
  | TypeError
  | NotImplementedError
  | RuntimeError (msg : string)
  | UnpicklingError
  | OSError (msg : string).

#[global] Instance exn_eq_dec : EqDecision exn.
Proof. solve_decision. Defined.

(** Primitive values: what a registry name or an epoch can be. *)
Inductive pyval : Type :=
  | VNone
  | VBool (b : bool)
  | VInt (n : Z)
  | VStr (s : string).

#[global] Instance pyval_eq_dec : EqDecision pyval.
Proof. solve_decision. Defined.

(** [str(v)], which is what ["{}".format(v)] renders. *)
Definition py_str (v : pyval) : string :=
  match v with
  | VNone => "None"
  | VBool true => "True"
  | VBool false => "False"
  | VInt n => pretty n
  | VStr s => s
  end.

(** [isinstance(v, str)] *)
Definition is_str (v : pyval) : bool :=
  match v with VStr _ => true | _ => false end.

(** Truthiness of an optional string option of the configuration:
    [None] and the empty string are false. *)
Definition truthy (o : option string) : bool :=
  match o with
  | None => false
  | Some s => negb (String.eqb s "")
  end.

(** [s.split(",")]: the pieces between the separators, empty ones kept. *)
Fixpoint split_on (sep : Ascii.ascii) (s : string) : list string :=
  match s with
  | EmptyString => [EmptyString]
  | String c rest =>
      if Ascii.eqb c sep then EmptyString :: split_on sep rest
      else match split_on sep rest with
           | piece :: pieces => String c piece :: pieces
           | [] => [String c EmptyString]
           end
  end.

Definition split_comma (s : string) : list string := split_on ","%char s.

(** ** [os.path] on POSIX *)

Fixpoint endswith_sep (s : string) : bool :=
  match s with
  | EmptyString => false
  | String c EmptyString => Ascii.eqb c "/"%char
  | String _ rest => endswith_sep rest
  end.

Definition startswith_sep (s : string) : bool :=
  match s with
  | String c _ => Ascii.eqb c "/"%char
  | EmptyString => false
  end.

(** [os.path.join(a, b)] *)
Definition os_path_join (a b : string) : string :=
  if startswith_sep b then b
  else if String.eqb a "" || endswith_sep a then a +:+ b
  else a +:+ "/" +:+ b.

(** ** Torch objects *)

(** A tensor is its flat data; its shape is the length of the data. *)
Definition tensor : Type := list Z.

(** A parameter is a mutable object: it lives in the world under a location. *)
Record param : Type := Param {
  data : tensor;
  requires_grad : bool;
}.

(** An [nn.Module] is known by its named parameters (locations of [param]
    objects, possibly shared with other modules); [nn.DataParallel] wraps a
    module that is reached through [.module]. *)
Inductive module : Type :=
  | Module (named : list (string * nat))
  | DataParallel (inner : module).

(** [isinstance(net, nn.DataParallel)] *)
Definition is_data_parallel (net : module) : bool :=
  match net with DataParallel _ => true | Module _ => false end.

(** [if isinstance(net, nn.DataParallel): net = net.module] *)
Definition unwrap (net : module) : module :=
  match net with DataParallel inner => inner | Module _ => net end.

(** [net.named_parameters()]: a wrapper prefixes its inner names. *)
Fixpoint named_parameters (net : module) : list (string * nat) :=
  match net with
  | Module named => named
  | DataParallel inner =>
      (λ kp, ("module." +:+ kp.1, kp.2)) <$> named_parameters inner
  end.

(** [net.parameters()]: each parameter object once, however many names
    it has. *)
Definition parameters (net : module) : list nat := remove_dups (named_parameters net).*2.

(** What a pickled dictionary holds under a key. *)
Inductive item : Type :=
  | ITensor (t : tensor)
  | IOther (v : pyval).

(** A file is a pickled dictionary (a state dict or the other-states
    dictionary), or bytes [torch.load] cannot read. *)
Inductive file : Type :=
  | Pickled (d : gmap string item)
  | Corrupt.

(** An optimizer, by the ["lr"] entry of each of its parameter groups. *)
Record optimizer : Type := Optimizer {
  param_groups : list Q;
}.

(** A learning-rate scheduler: the optimizer it drives, its step counter and
    the rule that gives the groups' next rates. *)
Record scheduler : Type := Scheduler {
  sched_optimizer : nat;
  last_epoch : nat;
  get_lr : nat → list Q → list Q;
}.

(** ** The world: everything the methods share and mutate *)

(** The method calls [setup] makes, each with its arguments. *)
Inductive call : Type :=
  | LoadSubnetworks (epoch : pyval) (names : list string) (resume_dir : option string)
  | LoadNetworks (epoch : pyval)
  | FreezeSubnetworks (network_names : list string)
  | PrintNetworks (verbose : bool).

(** The text a [print] call writes, by the call that writes it. *)
Inductive message : Type :=
  | MsgLoadingPretrained (nets : list string)
  | MsgFreezing (nets : list string)
  | MsgCannotLoad (path : string)
  | MsgLoading (name : pyval)
  | MsgException (e : exn)
  | MsgBanner
  | MsgNetwork (net : module)
  | MsgNumParams (name : string) (num_params : nat)
  | MsgFooter
  | MsgLearningRate (i : nat) (lr : Q).

(** What a run does that can be seen from outside, in the order it happens. *)
Inductive event : Type :=
  | Enter (c : call)
  | SchedulerStep (s : nat)
  | TorchSave (path : string)
  | TorchLoad (path : string)
  | LoadStateDict (net : module) (sd : gmap string item) (strict : bool)
  | Print (msg : message).

Record world : Type := World {
  files : gmap string file;
  (** the exception a write to a path meets, if any (missing directory,
      full disk, an object that cannot be pickled) *)
  write_error : string → option exn;
  params : nat → param;
  optims : nat → optimizer;
  scheds : nat → scheduler;
  next_sched : nat;
  trace : list event;
}.

Definition set_files (f : gmap string file → gmap string file) (w : world) : world :=
  World (f (files w)) (write_error w) (params w) (optims w) (scheds w)
        (next_sched w) (trace w).

Definition set_params (f : (nat → param) → (nat → param)) (w : world) : world :=
  World (files w) (write_error w) (f (params w)) (optims w) (scheds w)
        (next_sched w) (trace w).

Definition set_optims (f : (nat → optimizer) → (nat → optimizer)) (w : world) : world :=
  World (files w) (write_error w) (params w) (f (optims w)) (scheds w)
        (next_sched w) (trace w).

Definition set_scheds (f : (nat → scheduler) → (nat → scheduler)) (w : world) : world :=
  World (files w) (write_error w) (params w) (optims w) (f (scheds w))
        (next_sched w) (trace w).

Definition set_next_sched (n : nat) (w : world) : world :=
  World (files w) (write_error w) (params w) (optims w) (scheds w) n (trace w).

Definition add_event (e : event) (w : world) : world :=
  World (files w) (write_error w) (params w) (optims w) (scheds w)
        (next_sched w) (trace w ++ [e]).

(** ** The monad: state over the world, with Python exceptions *)

Inductive result (A : Type) : Type :=
  | Ok (a : A)
  | Raise (e : exn).
Arguments Ok {A} a.
Arguments Raise {A} e.

Definition M (A : Type) : Type := world → result A * world.

#[global] Instance M_ret : MRet M := λ A a w, (Ok a, w).

#[global] Instance M_bind : MBind M := λ A B f m w,
  match m w with
  | (Ok a, w') => f a w'
  | (Raise e, w') => (Raise e, w')
  end.

Definition raise {A : Type} (e : exn) : M A := λ w, (Raise e, w).

Definition get_world : M world := λ w, (Ok w, w).

Definition modify (f : world → world) : M unit := λ w, (Ok tt, f w).

Definition emit (e : event) : M unit := modify (add_event e).

(** [print(...)] *)
Definition print (msg : message) : M unit := emit (Print msg).

(** [for x in xs: body(x)]: an exception leaves the loop. *)
Fixpoint for_each {A : Type} (xs : list A) (body : A → M unit) : M unit :=
  match xs with
  | [] => mret tt
  | x :: rest => body x ;; for_each rest body
  end.

(** [try: body except Exception as e: handler(e)]: what [body] did to the
    world before it raised stays done. *)
Definition try_except (body : M unit) (handler : exn → M unit) : M unit := λ w,
  match body w with
  | (Ok u, w') => (Ok u, w')
  | (Raise e, w') => handler e w'
  end.

(** The outcome and the final world of a run. *)
Definition outcome {A : Type} (r : result A * world) : result A := r.1.
Definition final {A : Type} (r : result A * world) : world := r.2.

(** [returns r]: the call came back without an exception. *)
Definition returns {A : Type} (r : result A * world) : bool :=
  match r.1 with Ok _ => true | Raise _ => false end.

(** ** Torch functions *)

(** [net.state_dict()]: the data of each named parameter. *)
Definition state_dict_at (w : world) (net : module) : gmap string item :=
  list_to_map ((λ kp, (kp.1, ITensor (data (params w kp.2)))) <$> named_parameters net).

Definition state_dict (net : module) : M (gmap string item) :=
  w ← get_world;
  mret (state_dict_at w net).

(** [torch.save(obj, path)] *)
Definition torch_save (obj : gmap string item) (path : string) : M unit :=
  emit (TorchSave path) ;;
  w ← get_world;
  match write_error w path with
  | Some e => raise e
  | None => modify (set_files (insert path (Pickled obj)))
  end.

(** [os.path.isfile(path)] *)
Definition os_path_isfile (path : string) : M bool :=
  w ← get_world;
  mret (bool_decide (is_Some (files w !! path))).

(** [torch.load(path, map_location=...)] *)
Definition torch_load (path : string) : M (gmap string item) :=
  emit (TorchLoad path) ;;
  w ← get_world;
  match files w !! path with
  | Some (Pickled d) => mret d
  | Some Corrupt => raise UnpicklingError
  | None => raise (OSError "No such file or directory")
  end.

(** [param.requires_grad_(flag)] on the parameter at a location *)
Definition set_flag (flag : bool) (l : nat) (ps : nat → param) : nat → param :=
  <[l := Param (data (ps l)) flag]> ps.

(** [net.requires_grad_(flag)]: every parameter of the module. *)
Definition requires_grad_ (net : module) (flag : bool) : M unit :=
  modify (set_params (λ ps, foldr (set_flag flag) ps (parameters net))).

(** One named parameter of [load_state_dict]: a tensor of the parameter's
    shape under its key is copied in; a value that is no tensor or has
    another shape is an error; a key that is absent is left to the key
    comparison.  The result pairs the store with the error flag. *)
Definition load_param (sd : gmap string item) (kp : string * nat)
    (acc : (nat → param) * bool) : (nat → param) * bool :=
  match sd !! kp.1 with
  | Some (ITensor t) =>
      if bool_decide (length t = length (data (acc.1 kp.2)))
      then (<[kp.2 := Param t (requires_grad (acc.1 kp.2))]> acc.1, acc.2)
      else (acc.1, true)
  | Some (IOther _) => (acc.1, true)
  | None => acc
  end.

(** Keys the module expects and the dictionary lacks. *)
Definition missing_keys (net : module) (sd : gmap string item) : list string :=
  filter (λ k, sd !! k = None) (named_parameters net).*1.

(** Keys of the dictionary the module does not expect. *)
Definition unexpected_keys (net : module) (sd : gmap string item) : list string :=
  filter (λ k, k ∉ (named_parameters net).*1) (map_to_list sd).*1.

(** [net.load_state_dict(state_dict, strict=strict)]: matching entries are
    copied first; then a [RuntimeError] is raised if an entry could not be
    copied, or, when [strict], if a key is missing or unexpected. *)
Definition load_state_dict (net : module) (sd : gmap string item) (strict : bool) : M unit :=
  emit (LoadStateDict net sd strict) ;;
  w ← get_world;
  let loaded := foldl (λ acc kp, load_param sd kp acc) (params w, false)
                      (named_parameters net) in
  modify (set_params (λ _, loaded.1)) ;;
  let key_errors :=
    strict && negb (bool_decide (missing_keys net sd = [] ∧ unexpected_keys net sd = [])) in
  if loaded.2 || key_errors
  then raise (RuntimeError "Error(s) in loading state_dict")
  else mret tt.

(** [scheduler.step()]: the counter goes up by one and the optimizer's
    groups take the rates the rule gives for the new count. *)
Definition scheduler_step (s : nat) : M unit :=
  emit (SchedulerStep s) ;;
  w ← get_world;
  let sch := scheds w s in
  let epoch := S (last_epoch sch) in
  let o := sched_optimizer sch in
  modify (set_scheds (<[s := Scheduler o epoch (get_lr sch)]>)) ;;
  modify (set_optims (<[o := Optimizer (get_lr sch epoch (param_groups (optims w o)))]>)).

(** ** The configuration and the object *)

(** The fields of the configuration object [opt] that [BaseModel] reads
    (prefixed: two of them share a name with a method). *)
Record options : Type := Options {
  opt_gpu_ids : list Z;
  opt_is_train : bool;
  opt_checkpoints_dir : string;
  opt_name : string;
  opt_resume_dir : option string;
  opt_resume_epoch : pyval;
  opt_load_subnetworks_dir : option string;
  opt_load_subnetworks : option string;
  opt_load_subnetworks_epoch : pyval;
  opt_freeze_subnetworks : option string;
  opt_verbose : bool;
}.

(** What an attribute set by a subclass holds. *)
Inductive attr : Type :=
  | AModule (net : module)
  | ATensor (t : tensor)
  | AValue (v : pyval).

(** The object [self].  [attrs] is the namespace [getattr(self, ...)]
    resolves registry names in; [optimizers], [schedulers] and
    [subnetworks] are [None] while the attribute is not set (for
    [subnetworks]: while [get_subnetworks] is not overridden). *)
Record BaseModel : Type := Build_BaseModel {
  opt : options;
  gpu_ids : list Z;
  is_train : bool;
  save_dir : string;
  loss_names : list pyval;
  model_names : list pyval;
  visual_names : list pyval;
  attrs : gmap string attr;
  optimizers : option (list nat);
  schedulers : option (list nat);
  subnetworks : option (list (string * module));
}.

(** [self.schedulers = ss] *)
Definition set_schedulers (ss : list nat) (self : BaseModel) : BaseModel :=
  Build_BaseModel (opt self) (gpu_ids self) (is_train self) (save_dir self)
    (loss_names self) (model_names self) (visual_names self) (attrs self)
    (optimizers self) (Some ss) (subnetworks self).

(** ** Exceptions without the world, for the methods that only read [self] *)

#[global] Instance result_ret : MRet result := λ A a, Ok a.

#[global] Instance result_bind : MBind result := λ A B f r,
  match r with
  | Ok a => f a
  | Raise e => Raise e
  end.

(** A result as a computation that leaves the world alone. *)
Definition lift {A : Type} (r : result A) : M A := λ w, (r, w).

(** [assert b] *)
Definition assert_ (b : bool) : result unit :=
  if b then Ok tt else Raise AssertionError.

(** [getattr(self, name)] *)
Definition getattr (self : BaseModel) (name : string) : result attr :=
  match attrs self !! name with
  | Some a => Ok a
  | None => Raise (AttributeError name)
  end.

(** A loop that builds a value and stops at the first exception. *)
Fixpoint fold_result {A B : Type} (f : B → A → result B) (xs : list A) (acc : B) : result B :=
  match xs with
  | [] => Ok acc
  | x :: rest =>
      match f acc x with
      | Ok acc' => fold_result f rest acc'
      | Raise e => Raise e
      end
  end.

(** [d[k] = v] on a dictionary kept in insertion order. *)
Fixpoint dict_set {V : Type} (d : list (string * V)) (k : string) (v : V) : list (string * V) :=
  match d with
  | [] => [(k, v)]
  | (k', v') :: rest =>
      if String.eqb k' k then (k', v) :: rest else (k', v') :: dict_set rest k v
  end.

(** [d[k]] *)
Fixpoint dict_get {V : Type} (d : list (string * V)) (k : string) : option V :=
  match d with
  | [] => None
  | (k', v) :: rest => if String.eqb k' k then Some v else dict_get rest k
  end.

(** ** The methods of [BaseModel] *)


(** [get_networks(self)] *)
Definition get_networks (self : BaseModel) : result (list module) :=
  fold_result (λ ret name,
      assert_ (is_str name) ;;
      net ← getattr self ("net_" +:+ py_str name);
      match net with
      | AModule m => Ok (ret ++ [m])
      | _ => Raise AssertionError
      end)
    (model_names self) [].

(** [get_current_visuals(self)] *)
Definition get_current_visuals (self : BaseModel) : result (list (string * attr)) :=
  fold_result (λ ret name,
      assert_ (is_str name) ;;
      v ← getattr self (py_str name);
      Ok (dict_set ret (py_str name) v))
    (visual_names self) [].

(** [get_current_losses(self)] *)
Definition get_current_losses (self : BaseModel) : result (list (string * attr)) :=
  fold_result (λ ret name,
      assert_ (is_str name) ;;
      v ← getattr self ("loss_" +:+ py_str name);
      Ok (dict_set ret (py_str name) v))
    (loss_names self) [].

(** [get_subnetworks(self)]: the base class raises; a subclass returns its
    dictionary. *)
Definition get_subnetworks (self : BaseModel) : M (list (string * module)) :=
  match subnetworks self with
  | Some nets => mret nets
  | None => raise NotImplementedError
  end.

(** [nets[name]] *)
Definition subscript (nets : list (string * module)) (name : string) : M module :=
  match dict_get nets name with
  | Some net => mret net
  | None => raise (KeyError name)
  end.

(** [freeze_subnetworks(self, network_names)] *)
Definition freeze_subnetworks (self : BaseModel) (network_names : list string) : M unit :=
  nets ← get_subnetworks self;
  for_each network_names (λ name,
    net ← subscript nets name;
    requires_grad_ net false).

(** [unfreeze_subnetworks(self, network_names)] *)
Definition unfreeze_subnetworks (self : BaseModel) (network_names : list string) : M unit :=
  nets ← get_subnetworks self;
  for_each network_names (λ name,
    net ← subscript nets name;
    requires_grad_ net true).

(** The file names of the checkpoints. *)
Definition subnet_filename (epoch : pyval) (name : string) : string :=
  py_str epoch +:+ "_subnet_" +:+ name +:+ ".pth".

Definition net_filename (epoch : pyval) (name : pyval) : string :=
  py_str epoch +:+ "_net_" +:+ py_str name +:+ ".pth".

Definition states_filename (epoch : pyval) : string :=
  py_str epoch +:+ "_states.pth".

(** The guarded body of both save loops:
    [if isinstance(net, nn.DataParallel): net = net.module]
    [torch.save(net.state_dict(), save_path)] *)
Definition save_one (net : module) (save_path : string) : M unit :=
  try_except
    (sd ← state_dict (unwrap net);
     torch_save sd save_path)
    (λ e, print (MsgException e)).

(** [save_subnetworks(self, epoch)] *)
Definition save_subnetworks (self : BaseModel) (epoch : pyval) : M unit :=
  nets ← get_subnetworks self;
  for_each nets (λ '(name, net),
    let save_filename := subnet_filename epoch name in
    let save_path := os_path_join (save_dir self) save_filename in
    save_one net save_path).

(** [os.path.join(dir, filename)] where [dir] may be [None] *)
Definition join_dir (dir : option string) (filename : string) : M string :=
  match dir with
  | Some d => mret (os_path_join d filename)
  | None => raise TypeError
  end.

(** The end of both load loops, from the [isfile] test on. *)
Definition load_one (net : module) (load_path : string) (strict : bool) : M unit :=
  isfile ← os_path_isfile load_path;
  if negb isfile then print (MsgCannotLoad load_path)
  else
    sd ← torch_load load_path;
    load_state_dict (unwrap net) sd strict.

(** [resume_dir if resume_dir is not None else self.opt.resume_dir] *)
Definition resume_dir_or (self : BaseModel) (resume_dir : option string) : option string :=
  match resume_dir with
  | Some d => Some d
  | None => opt_resume_dir (opt self)
  end.

(** [load_subnetworks(self, epoch, names=None, resume_dir=None)] *)
Definition load_subnetworks (self : BaseModel) (epoch : pyval)
    (names : option (list string)) (resume_dir : option string) : M unit :=
  networks ← get_subnetworks self;
  let names := match names with
               | None => networks.*1
               | Some names => names
               end in
  for_each networks (λ '(name, net),
    if negb (bool_decide (name ∈ names)) then mret tt
    else
      let load_filename := subnet_filename epoch name in
      load_path ← join_dir (resume_dir_or self resume_dir) load_filename;
      load_one net load_path true).

(** [save_networks(self, epoch, other_states={})] *)
Definition save_networks (self : BaseModel) (epoch : pyval)
    (other_states : gmap string item) : M unit :=
  nets ← lift (get_networks self);
  for_each (zip (model_names self) nets) (λ '(name, net),
    let save_filename := net_filename epoch name in
    let save_path := os_path_join (save_dir self) save_filename in
    save_one net save_path) ;;
  let save_filename := states_filename epoch in
  let save_path := os_path_join (save_dir self) save_filename in
  torch_save other_states save_path.

(** [load_networks(self, epoch)] *)
Definition load_networks (self : BaseModel) (epoch : pyval) : M unit :=
  nets ← lift (get_networks self);
  for_each (zip (model_names self) nets) (λ '(name, net),
    print (MsgLoading name) ;;
    lift (assert_ (is_str name)) ;;
    let load_filename := net_filename epoch name in
    load_path ← join_dir (opt_resume_dir (opt self)) load_filename;
    load_one net load_path false).

(** [param.numel()] summed over [net.parameters()] *)
Definition count_params (w : world) (net : module) : nat :=
  foldl (λ num_params l, num_params + length (data (params w l))) 0
        (parameters net).

(** [print_networks(self, verbose)] *)
Definition print_networks (self : BaseModel) (verbose : bool) : M unit :=
  print MsgBanner ;;
  nets ← lift (get_networks self);
  for_each (zip (model_names self) nets) (λ '(name, net),
    w ← get_world;
    let num_params := count_params w net in
    (if verbose then print (MsgNetwork net) else mret tt) ;;
    print (MsgNumParams (py_str name) num_params)) ;;
  print MsgFooter.

(** [self.schedulers] and [self.optimizers] *)
Definition read_attr {A : Type} (name : string) (field : option A) : M A :=
  match field with
  | Some v => mret v
  | None => raise (AttributeError name)
  end.

(** [enumerate(xs)] *)
Definition enumerate {A : Type} (xs : list A) : list (nat * A) := zip (seq 0 (length xs)) xs.

(** [update_learning_rate(self, verbose=False)] *)
Definition update_learning_rate (self : BaseModel) (verbose : bool) : M unit :=
  ss ← read_attr "schedulers" (schedulers self);
  for_each ss scheduler_step ;;
  os ← read_attr "optimizers" (optimizers self);
  for_each (enumerate os) (λ '(i, optim),
    w ← get_world;
    match param_groups (optims w optim) with
    | [] => raise IndexError
    | lr :: _ => if verbose then print (MsgLearningRate (i + 1) lr) else mret tt
    end).

(** ** [setup]

    [get_scheduler] comes from [models/networks.py]: it builds the
    scheduler of one optimizer from the configuration, or raises. *)
Section Setup.

Variable get_scheduler : nat → options → result scheduler.

(** A new scheduler object in the world; its location is returned. *)
Definition new_scheduler (optim : nat) (o : options) : M nat :=
  sch ← lift (get_scheduler optim o);
  w ← get_world;
  let s := next_sched w in
  modify (set_scheds (<[s := sch]>)) ;;
  modify (set_next_sched (S s)) ;;
  mret s.

(** [[get_scheduler(optim, opt) for optim in self.optimizers]] *)
Fixpoint new_schedulers (optims : list nat) (o : options) : M (list nat) :=
  match optims with
  | [] => mret []
  | optim :: rest =>
      s ← new_scheduler optim o;
      ss ← new_schedulers rest o;
      mret (s :: ss)
  end.

(** [opt.load_subnetworks.split(",")] and [opt.freeze_subnetworks.split(",")] *)
Definition split_option (field : option string) : M (list string) :=
  match field with
  | Some s => mret (split_comma s)
  | None => raise (AttributeError "split")
  end.

(** The first statement of [setup]: the schedulers, when training. *)
Definition setup_schedulers (self : BaseModel) (o : options) : M BaseModel :=
  if is_train self then
    optims ← read_attr "optimizers" (optimizers self);
    ss ← new_schedulers optims o;
    mret (set_schedulers ss self)
  else mret self.

(** The second statement of [setup]: the pretrained subnetworks. *)
Definition setup_load_subnetworks (self : BaseModel) (o : options) : M unit :=
  if truthy (opt_load_subnetworks_dir o) then
    nets ← split_option (opt_load_subnetworks o);
    names ← split_option (opt_load_subnetworks o);
    emit (Enter (LoadSubnetworks (opt_load_subnetworks_epoch o) names
                                 (opt_load_subnetworks_dir o))) ;;
    load_subnetworks self (opt_load_subnetworks_epoch o) (Some names)
                     (opt_load_subnetworks_dir o) ;;
    print (MsgLoadingPretrained nets)
  else mret tt.

(** The third statement of [setup]: the checkpoints of the networks. *)
Definition setup_load_networks (self : BaseModel) (o : options) : M unit :=
  if negb (is_train self) || truthy (opt_resume_dir o) then
    emit (Enter (LoadNetworks (opt_resume_epoch o))) ;;
    load_networks self (opt_resume_epoch o)
  else mret tt.

(** The fourth statement of [setup]: the frozen subnetworks. *)
Definition setup_freeze_subnetworks (self : BaseModel) (o : options) : M unit :=
  if truthy (opt_freeze_subnetworks o) then
    nets ← split_option (opt_freeze_subnetworks o);
    names ← split_option (opt_freeze_subnetworks o);
    emit (Enter (FreezeSubnetworks names)) ;;
    freeze_subnetworks self names ;;
    print (MsgFreezing nets)
  else mret tt.

(** [setup(self, opt)]; the object comes back with its schedulers set.
    Each call of a method is preceded by its [Enter] mark in the trace. *)
Definition setup (self : BaseModel) (o : options) : M BaseModel :=
  self ← setup_schedulers self o;
  setup_load_subnetworks self o ;;
  setup_load_networks self o ;;
  setup_freeze_subnetworks self o ;;
  emit (Enter (PrintNetworks (opt_verbose o))) ;;
  print_networks self (opt_verbose o) ;;
  mret self.

End Setup.

(** ** Observing a run *)

(** The events a run adds to the trace. *)
Definition run_events {A : Type} (m : M A) (w : world) : list event :=
  drop (length (trace w)) (trace (final (m w))).

(** The method calls among some events, in order. *)
Definition calls_of (evs : list event) : list call :=
  omap (λ e, match e with Enter c => Some c | _ => None end) evs.


(** The exceptions that were printed, in order. *)
Definition printed_exceptions (evs : list event) : list exn :=
  omap (λ e, match e with Print (MsgException x) => Some x | _ => None end) evs.

(** Every event of a run satisfies [P], and the run only adds to the trace. *)
Definition emits {A : Type} (P : event → Prop) (m : M A) : Prop :=
  ∀ w, ∃ evs, trace (final (m w)) = trace w ++ evs ∧ Forall P evs.

(** An event that is no method call of [setup]. *)
Definition no_call (e : event) : Prop :=
  match e with Enter _ => False | _ => True end.

(** An event that is no method call, and passes [strict] if it is a
    [load_state_dict]. *)
Definition loads_with (strict : bool) (e : event) : Prop :=
  match e with
  | Enter _ => False
  | LoadStateDict _ _ s => s = strict
  | _ => True
  end.

(** The calls a run adds are a prefix of [cs], and all of [cs] when the run
    returns. *)
Definition adds_calls {A : Type} (m : M A) (cs : list call) : Prop :=
  ∀ w, ∃ evs, trace (final (m w)) = trace w ++ evs ∧
              calls_of evs `prefix_of` cs ∧
              (returns (m w) = true → calls_of evs = cs).

(** ** The calls [setup] is to make *)

(** The calls each statement of [setup] makes when it returns. *)
Definition plan_load_subnetworks (o : options) : list call :=
  if truthy (opt_load_subnetworks_dir o) then
    match opt_load_subnetworks o with
    | Some s => [LoadSubnetworks (opt_load_subnetworks_epoch o) (split_comma s)
                                 (opt_load_subnetworks_dir o)]
    | None => []
    end
  else [].




(** The statements of [setup] that come before the test on [resume_dir]. *)
Definition setup_before_load_networks (get_scheduler : nat → options → result scheduler)
    (self : BaseModel) (o : options) : M BaseModel :=
  self ← setup_schedulers get_scheduler self o;
  setup_load_subnetworks self o ;;
  mret self.



Definition is_freeze_subnetworks (c : call) : bool :=
  match c with FreezeSubnetworks _ => true | _ => false end.


(** ** What stops a getter *)

(** What stops [get_networks] at a name: a name that is no string and an
    attribute that is no module fail an [assert]; a missing attribute makes
    [getattr] raise. *)
Definition net_error (self : BaseModel) (name : pyval) : option exn :=
  if is_str name then
    match attrs self !! ("net_" +:+ py_str name) with
    | None => Some (AttributeError ("net_" +:+ py_str name))
    | Some (AModule _) => None
    | Some _ => Some AssertionError
    end
  else Some AssertionError.

(** What stops [get_current_losses] at a name: the attribute may be of any
    kind. *)
Definition loss_error (self : BaseModel) (name : pyval) : option exn :=
  if is_str name then
    match attrs self !! ("loss_" +:+ py_str name) with
    | None => Some (AttributeError ("loss_" +:+ py_str name))
    | Some _ => None
    end
  else Some AssertionError.

(** What stops [get_current_visuals] at a name. *)
Definition visual_error (self : BaseModel) (name : pyval) : option exn :=
  if is_str name then
    match attrs self !! py_str name with
    | None => Some (AttributeError (py_str name))
    | Some _ => None
    end
  else Some AssertionError.

(** The error of the first name that has one. *)
Fixpoint first_error (err : pyval → option exn) (names : list pyval) : option exn :=
  match names with
  | [] => None
  | name :: rest =>
      match err name with
      | Some e => Some e
      | None => first_error err rest
      end
  end.

(** ** What saving and loading add to the trace *)

(** What one guarded [torch.save] adds to the trace: the call, and the
    exception printed by the handler when the write raises. *)
Definition save_events (w : world) (path : string) : list event :=
  TorchSave path ::
  match write_error w path with
  | Some e => [Print (MsgException e)]
  | None => []
  end.

(** An entry of a checkpoint fits the parameter it is for: it is a tensor
    of the parameter's shape, or it is absent. *)
Definition entry_fits (ps : nat → param) (sd : gmap string item) (kp : string * nat) : bool :=
  match sd !! kp.1 with
  | Some (ITensor t) => bool_decide (length t = length (data (ps kp.2)))
  | Some (IOther _) => false
  | None => true
  end.

(** Every entry the checkpoint has for a parameter of the module fits it. *)
Definition entries_ok (w : world) (net : module) (sd : gmap string item) : bool :=
  forallb (entry_fits (params w) sd) (named_parameters net).

(** The keys of the checkpoint are exactly the keys the module expects. *)
Definition keys_match (net : module) (sd : gmap string item) : bool :=
  bool_decide (missing_keys net sd = [] ∧ unexpected_keys net sd = []).

(** The checkpoint can be loaded into the module with the given [strict]. *)
Definition loadable (w : world) (net : module) (sd : gmap string item) (strict : bool) : bool :=
  entries_ok w net sd && (negb strict || keys_match net sd).

(** The file at a path, if there is one, can be loaded into the network. *)
Definition file_loadable (w : world) (strict : bool) (path : string) (net : module) : bool :=
  match files w !! path with
  | None => true
  | Some (Pickled sd) => loadable w (unwrap net) sd strict
  | Some Corrupt => false
  end.

(** What the load of one network from a path adds to the trace. *)
Definition load_events (w : world) (strict : bool) (path : string) (net : module) : list event :=
  match files w !! path with
  | None => [Print (MsgCannotLoad path)]
  | Some (Pickled sd) => [TorchLoad path; LoadStateDict (unwrap net) sd strict]
  | Some Corrupt => [TorchLoad path]
  end.

(** Two worlds hold the same files and parameters of the same shapes. *)
Definition same_shapes (w w' : world) : Prop :=
  files w' = files w ∧ ∀ l, length (data (params w' l)) = length (data (params w l)).

(** ** Learning rates and gradient flags *)

(** What [update_learning_rate] prints for the optimizer [io.2], the
    [io.1]-th of the list counted from 0, in the world [w]. *)
Definition report (w : world) (io : nat * nat) : event :=
  Print (MsgLearningRate (io.1 + 1) (hd 0%Q (param_groups (optims w io.2)))).

(** The parameters of the subnetworks some names stand for. *)
Definition parameters_of (nets : list (string * module)) (names : list string) : list nat :=
  names ≫= (λ name, match dict_get nets name with
                     | Some net => parameters net
                     | None => []
                     end).

(** ** A small model to run the methods on

    Two subnetworks [a] and [b]; [a] is also the registered network
    [net_a].  Parameter 0 is the weight of [a], parameter 1 the bias of [b]. *)

Definition demo_net_a : module := Module [("weight", 0)].
Definition demo_net_b : module := DataParallel (Module [("bias", 1)]).

Definition demo_params (l : nat) : param :=
  match l with
  | 0 => Param [1; 2; 3]%Z false
  | _ => Param [4]%Z true
  end.

Definition demo_scheduler (optim : nat) : scheduler :=
  Scheduler optim 0 (λ epoch rates, (λ lr, lr * (1 # 2))%Q <$> rates).

(** A checkpoint of [a] for each of the two load methods; none of [b]. *)
Definition demo_files : gmap string file :=
  {[ "pretrained/3_subnet_a.pth" := Pickled {[ "weight" := ITensor [7; 8; 9]%Z ]};
     "resume/latest_net_a.pth" :=
       Pickled {[ "weight" := ITensor [10; 11; 12]%Z; "step" := IOther (VInt 5) ]} ]}.

Definition demo_world : world :=
  World demo_files (λ _, None) demo_params (λ _, Optimizer [(1 # 10)%Q])
        demo_scheduler 2 [].

Definition demo_options : options :=
  Options [] false "checkpoints" "run" (Some "resume") (VStr "latest")
          (Some "pretrained") (Some "a,b") (VInt 3) (Some "a") false.

Definition demo_model : BaseModel :=
  Build_BaseModel demo_options [] false "checkpoints/run" [] [VStr "a"] []
    {[ "net_a" := AModule demo_net_a ]} (Some [0; 1]) (Some [0; 1])
    (Some [("a", demo_net_a); ("b", demo_net_b)]).

(** The configuration [o] with [resume_dir] left unset. *)
Definition opt_without_resume_dir (o : options) : options :=
  Options (opt_gpu_ids o) (opt_is_train o) (opt_checkpoints_dir o) (opt_name o)
          None (opt_resume_epoch o) (opt_load_subnetworks_dir o)
          (opt_load_subnetworks o) (opt_load_subnetworks_epoch o)
          (opt_freeze_subnetworks o) (opt_verbose o).

(** The demo model configured without [resume_dir]. *)
Definition demo_options_fresh : options := opt_without_resume_dir demo_options.

Definition demo_model_fresh : BaseModel :=
  Build_BaseModel demo_options_fresh [] false "checkpoints/run" [] [VStr "a"] []
    {[ "net_a" := AModule demo_net_a ]} (Some [0; 1]) (Some [0; 1])
    (Some [("a", demo_net_a); ("b", demo_net_b)]).

(** The demo model with names registered that no attribute backs:
    a network [b], a loss [total], a visual [img]. *)
Definition demo_model_unbacked : BaseModel :=
  Build_BaseModel demo_options [] false "checkpoints/run"
    [VStr "total"] [VStr "a"; VStr "b"] [VStr "img"]
    {[ "net_a" := AModule demo_net_a ]} (Some [0; 1]) (Some [0; 1])
    (Some [("a", demo_net_a); ("b", demo_net_b)]).

(** The demo world on a disk where the write of [a]'s checkpoint fails, and
    on one where every write fails. *)
Definition demo_world_bad_file : world :=
  World demo_files
        (λ path, if String.eqb path "checkpoints/run/3_net_a.pth"
                 then Some (OSError "Permission denied") else None)
        demo_params (λ _, Optimizer [(1 # 10)%Q]) demo_scheduler 2 [].

Definition demo_world_full_disk : world :=
  World demo_files (λ _, Some (OSError "No space left on device"))
        demo_params (λ _, Optimizer [(1 # 10)%Q]) demo_scheduler 2 [].


(** A checkpoint of [a] with one key more than [a] has parameters. *)
Definition demo_checkpoint : gmap string item :=
  {[ "weight" := ITensor [10; 11; 12]%Z; "step" := IOther (VInt 5) ]}.

Definition demo_get_scheduler (optim : nat) (o : options) : result scheduler :=
  Ok (demo_scheduler optim).

(** * Further methods and vocabulary *)

(** A run leaves one aspect of the world as it found it, whether it returns
    or raises. *)
Definition keeps {A B : Type} (proj : world → B) (m : M A) : Prop :=
  ∀ w, proj (final (m w)) = proj w.

(** The argument of [set_requires_grad]: one network or a list of networks,
    where a network may be [None]. *)
Inductive nets_arg : Type :=
  | OneNet (net : option module)
  | NetList (nets : list (option module)).

(** [if not isinstance(nets, list): nets = [nets]] *)
Definition as_list (nets : nets_arg) : list (option module) :=
  match nets with
  | OneNet net => [net]
  | NetList nets => nets
  end.

(** [set_requires_grad(self, nets, requires_grad)].  [if net:] skips [None];
    a module is true (a container that is false is an empty one, and has no
    parameters to set). *)
Definition set_requires_grad (self : BaseModel) (nets : nets_arg) (flag : bool) : M unit :=
  for_each (as_list nets) (λ net,
    match net with
    | Some net =>
        for_each (parameters net) (λ param, modify (set_params (set_flag flag param)))
    | None => mret tt
    end).

(** The parameters of the networks of a list that are not [None]. *)
Definition parameters_in (nets : list (option module)) : list nat :=
  nets ≫= (λ net, match net with Some net => parameters net | None => [] end).

(** Every parameter in [locs] holds the data it holds in [ws] and keeps the
    gradient flag it has in [ps]; every other parameter is as in [ps]. *)
Definition restored (ws : world) (locs : list nat) (ps : nat → param) (l : nat) : param :=
  if decide (l ∈ locs) then Param (data (params ws l)) (requires_grad (ps l)) else ps l.

(** The name is backed by a network: it is a string [s] and [net_<s>] is
    that network. *)
Definition backed_by (self : BaseModel) (name : pyval) (net : module) : Prop :=
  ∃ s, name = VStr s ∧ attrs self !! ("net_" +:+ s) = Some (AModule net).

(** What [load_networks] adds to the trace for one registered network. *)
Definition load_network_events (w : world) (path : string) (x : pyval * module) : list event :=
  Print (MsgLoading x.1) :: load_events w false path x.2.

(** What [print_networks] prints for one registered network. *)
Definition network_lines (w : world) (verbose : bool) (x : pyval * module) : list event :=
  (if verbose then [Print (MsgNetwork x.2)] else [])
    ++ [Print (MsgNumParams (py_str x.1) (count_params w x.2))].

(** The demo model with the attribute [net_a] registered twice as a visual. *)
Definition demo_model_visuals : BaseModel :=
  Build_BaseModel demo_options [] false "checkpoints/run"
    [] [VStr "a"] [VStr "net_a"; VStr "net_a"]
    {[ "net_a" := AModule demo_net_a ]} (Some [0; 1]) (Some [0; 1])
    (Some [("a", demo_net_a); ("b", demo_net_b)]).

(** A scheduler after one [step()]. *)
Definition stepped_scheduler (sch : scheduler) : scheduler :=
  Scheduler (sched_optimizer sch) (S (last_epoch sch)) (get_lr sch).

(** The demo model in training, configured to load and freeze nothing,
    before any scheduler is made. *)
Definition demo_options_training : options :=
  Options [] true "checkpoints" "run" None (VStr "latest") None None VNone None true.

Definition demo_model_training : BaseModel :=
  Build_BaseModel demo_options_training [] true "checkpoints/run" [] [VStr "a"] []
    {[ "net_a" := AModule demo_net_a ]} (Some [0; 1]) None
    (Some [("a", demo_net_a); ("b", demo_net_b)]).

(** The demo model at test time: no schedulers, nor will [setup] make any. *)
Definition demo_model_test : BaseModel :=
  Build_BaseModel demo_options [] false "checkpoints/run" [] [VStr "a"] []
    {[ "net_a" := AModule demo_net_a ]} (Some [0; 1]) None
    (Some [("a", demo_net_a); ("b", demo_net_b)]).

(** A [get_scheduler] that does not know the policy of optimizer 1. *)
Definition demo_get_scheduler_failing (optim : nat) (o : options) : result scheduler :=
  match optim with
  | 1 => Raise NotImplementedError
  | _ => Ok (demo_scheduler optim)
  end.

(** The demo world with an optimizer, 1, that has no parameter group. *)
Definition demo_world_no_groups : world :=
  World demo_files (λ _, None) demo_params
        (λ o, match o with 1 => Optimizer [] | _ => Optimizer [(1 # 10)%Q] end)
        (λ s, Scheduler 0 0 (λ _ rates, rates)) 2 [].

(** The locations of the parameters that checkpoints of the networks hold. *)
Definition checkpointed (nets : list module) : list nat :=
  nets ≫= (λ net, (named_parameters (unwrap net)).*2).

(** No two parameters of the network, as it is saved, go by one name. *)
Definition distinct_keys (net : module) : Prop :=
  NoDup (named_parameters (unwrap net)).*1.

(** A world after more training: the data of every parameter replaced by
    zeros of the same shape. *)
Definition zero_data (w : world) : world :=
  set_params (λ ps l, Param ((λ _, 0%Z) <$> data (ps l)) (requires_grad (ps l))) w.

(** The demo model configured to resume from its own checkpoints. *)
Definition demo_model_resuming : BaseModel :=
  Build_BaseModel
    (Options [] false "checkpoints" "run" (Some "checkpoints/run") (VInt 3)
             None None VNone None false)
    [] false "checkpoints/run" [] [VStr "a"] []
    {[ "net_a" := AModule demo_net_a ]} (Some [0; 1]) (Some [0; 1])
    (Some [("a", demo_net_a); ("b", demo_net_b)]).

(** The parameters [setup] freezes: those of the subnetworks that
    [opt.freeze_subnetworks] names, when it names any. *)
Definition frozen_by_setup (self : BaseModel) (o : options) : list nat :=
  match opt_freeze_subnetworks o, subnetworks self with
  | Some s, Some nets =>
      if truthy (Some s) then parameters_of nets (split_comma s) else []
  | _, _ => []
  end.

(** The demo model in training, configured to freeze the subnetwork [b]. *)
Definition demo_options_freezing : options :=
  Options [] true "checkpoints" "run" None (VStr "latest") None None VNone (Some "b") false.

(** The demo model of a class that does not override [get_subnetworks]. *)
Definition demo_model_base : BaseModel :=
  Build_BaseModel demo_options [] false "checkpoints/run" [] [VStr "a"] []
    {[ "net_a" := AModule demo_net_a ]} (Some [0; 1]) (Some [0; 1]) None.

(** The demo world with the checkpoint that has one key too many under the
    file name of the network [a] and under that of the subnetwork [a]. *)
Definition demo_world_extra_key : world :=
  World {[ "resume/latest_net_a.pth" := Pickled demo_checkpoint;
           "resume/latest_subnet_a.pth" := Pickled demo_checkpoint ]}
        (λ _, None) demo_params (λ _, Optimizer [(1 # 10)%Q]) demo_scheduler 2 [].

(** * Properties *)

(** ** Running the monad *)

Lemma run_bind {A B : Type} (m : M A) (f : A → M B) (w : world) :
  (m ≫= f) w = match m w with
               | (Ok a, w') => f a w'
               | (Raise e, w') => (Raise e, w')
               end.
Proof. reflexivity. Qed.

Lemma run_for_each_cons {A : Type} (x : A) (xs : list A) (body : A → M unit) (w : world) :
  for_each (x :: xs) body w =
    match body x w with
    | (Ok _, w') => for_each xs body w'
    | (Raise e, w') => (Raise e, w')
    end.
Proof. reflexivity. Qed.

Lemma run_events_eq {A : Type} (m : M A) (w : world) (evs : list event) :
  trace (final (m w)) = trace w ++ evs → run_events m w = evs.
Proof.
  intros H. unfold run_events. rewrite H. apply drop_app_length.
Qed.

(** ** Gradient flags *)

Lemma set_flag_lookup (flag : bool) (l l' : nat) (ps : nat → param) :
  set_flag flag l ps l' =
    if decide (l = l') then Param (data (ps l)) flag else ps l'.
Proof.
  unfold set_flag. destruct (decide (l = l')) as [->|Hne].
  - apply fn_lookup_insert.
  - by apply fn_lookup_insert_ne.
Qed.

Lemma foldr_set_flag_data (flag : bool) (ls : list nat) (ps : nat → param) (l : nat) :
  data (foldr (set_flag flag) ps ls l) = data (ps l).
Proof.
  induction ls as [|l0 ls IH]; simpl; [done|].
  rewrite set_flag_lookup. destruct (decide (l0 = l)) as [->|]; simpl; done.
Qed.

Lemma foldr_set_flag_in (flag : bool) (ls : list nat) (ps : nat → param) (l : nat) :
  l ∈ ls → requires_grad (foldr (set_flag flag) ps ls l) = flag.
Proof.
  induction ls as [|l0 ls IH]; simpl; intros Hin.
  - by apply elem_of_nil in Hin.
  - rewrite set_flag_lookup. destruct (decide (l0 = l)) as [->|Hne]; [done|].
    apply elem_of_cons in Hin as [->|Hin]; [done|]. by apply IH.
Qed.

Lemma foldr_set_flag_notin (flag : bool) (ls : list nat) (ps : nat → param) (l : nat) :
  l ∉ ls → foldr (set_flag flag) ps ls l = ps l.
Proof.
  induction ls as [|l0 ls IH]; simpl; intros Hnotin; [done|].
  apply not_elem_of_cons in Hnotin as [Hne Hnotin].
  rewrite set_flag_lookup. destruct (decide (l0 = l)) as [->|]; [done|]. by apply IH.
Qed.

(** The loop shared by [freeze_subnetworks] and [unfreeze_subnetworks]:
    when every name is a key of the dictionary it returns, the parameters of
    the named subnetworks take the flag and every other flag stays. *)
Lemma toggle_loop (nets : list (string * module)) (flag : bool) (names : list string) (w : world) :
  Forall (λ name, is_Some (dict_get nets name)) names →
  let r := for_each names (λ name, net ← subscript nets name; requires_grad_ net flag) w in
  outcome r = Ok tt ∧
  (∀ l, l ∈ parameters_of nets names → requires_grad (params (final r) l) = flag) ∧
  (∀ l, l ∉ parameters_of nets names → params (final r) l = params w l) ∧
  (∀ l, data (params (final r) l) = data (params w l)).
Proof.
  revert w. induction names as [|name names IH]; intros w Hall.
  - simpl. split_and!; [done| |done|done].
    intros l Hl. by apply elem_of_nil in Hl.
  - apply Forall_cons in Hall as [[net Hnet] Hall].
    assert (Hpar : parameters_of nets (name :: names)
                   = parameters net ++ parameters_of nets names).
    { unfold parameters_of. simpl. by rewrite Hnet. }
    rewrite Hpar. clear Hpar.
    rewrite run_for_each_cons, run_bind.
    unfold subscript at 1. rewrite Hnet.
    change (mret net (M := M) w) with (Ok net, w).
    cbv beta iota.
    change (requires_grad_ net flag w)
      with (Ok tt, set_params (λ ps, foldr (set_flag flag) ps (parameters net)) w).
    cbv beta iota.
    set (w1 := set_params _ w).
    destruct (IH w1 Hall) as (Hok & Hin & Hout & Hdata).
    split_and!.
    + exact Hok.
    + intros l Hl.
      destruct (decide (l ∈ parameters_of nets names)) as [Hl'|Hl'].
      * by apply Hin.
      * rewrite (Hout l Hl'). apply elem_of_app in Hl as [Hl|Hl]; [|done].
        subst w1. simpl. by apply foldr_set_flag_in.
    + intros l Hl. apply not_elem_of_app in Hl as [Hl1 Hl2].
      rewrite (Hout l Hl2). subst w1. simpl. by apply foldr_set_flag_notin.
    + intros l. rewrite Hdata. subst w1. simpl. apply foldr_set_flag_data.
Qed.

(** C6. For names that are keys of the dictionary [get_subnetworks] returns,
    [freeze_subnetworks(names)] returns and switches gradient tracking off
    on every parameter of the named subnetworks, and
    [unfreeze_subnetworks(names)] after it returns and leaves gradient
    tracking enabled on every one of those parameters. *)
Theorem freeze_then_unfreeze_enables_gradients
    (self : BaseModel) (names : list string) (w : world) (nets : list (string * module)) :
  subnetworks self = Some nets →
  Forall (λ name, is_Some (dict_get nets name)) names →
  let frozen := freeze_subnetworks self names w in
  let thawed := unfreeze_subnetworks self names (final frozen) in
  outcome frozen = Ok tt ∧ outcome thawed = Ok tt ∧
  ∀ name net l,
    name ∈ names → dict_get nets name = Some net → l ∈ parameters net →
    requires_grad (params (final frozen) l) = false ∧
    requires_grad (params (final thawed) l) = true.
Proof.
  intros Hnets Hall frozen thawed.
  assert (Hf : frozen
    = for_each names (λ name, net ← subscript nets name; requires_grad_ net false) w).
  { unfold frozen, freeze_subnetworks.
    rewrite run_bind; unfold get_subnetworks; by rewrite Hnets. }
  assert (Ht : thawed
    = for_each names (λ name, net ← subscript nets name; requires_grad_ net true)
        (final frozen)).
  { unfold thawed, unfreeze_subnetworks.
    rewrite run_bind; unfold get_subnetworks; by rewrite Hnets. }
  destruct (toggle_loop nets false names w Hall) as (Hok1 & Hin1 & _ & _).
  destruct (toggle_loop nets true names (final frozen) Hall) as (Hok2 & Hin2 & _ & _).
  rewrite <- Hf in Hok1, Hin1. rewrite <- Ht in Hok2, Hin2.
  split_and!; [done|done|].
  intros name net l Hname Hget Hl.
  assert (Hmem : l ∈ parameters_of nets names).
  { unfold parameters_of. apply list_elem_of_bind. exists name.
    by rewrite Hget. }
  split; [by apply Hin1 | by apply Hin2].
Qed.

Lemma freeze_then_unfreeze_witness :
  requires_grad (params demo_world 0) = false ∧
  requires_grad
    (params (final (unfreeze_subnetworks demo_model ["a"; "b"]
               (final (freeze_subnetworks demo_model ["a"; "b"] demo_world)))) 0) = true.
Proof.
  split; [reflexivity|].
  refine (proj2 (proj2 (proj2 (freeze_then_unfreeze_enables_gradients
            demo_model ["a"; "b"] demo_world
            [("a", demo_net_a); ("b", demo_net_b)] eq_refl _))
            "a" demo_net_a 0 _ eq_refl _)).
  - repeat constructor; eexists; reflexivity.
  - apply list_elem_of_here.
  - apply list_elem_of_here.
Defined.

(** ** Learning-rate schedulers *)

Lemma run_scheduler_step (s : nat) (w : world) :
  scheduler_step s w =
    (Ok tt,
     set_optims
       (<[sched_optimizer (scheds w s) :=
            Optimizer (get_lr (scheds w s) (S (last_epoch (scheds w s)))
                         (param_groups (optims w (sched_optimizer (scheds w s)))))]>)
       (set_scheds
          (<[s := Scheduler (sched_optimizer (scheds w s))
                            (S (last_epoch (scheds w s))) (get_lr (scheds w s))]>)
          (add_event (SchedulerStep s) w))).
Proof. reflexivity. Qed.

(** The first loop of [update_learning_rate]: one [step] per entry of the
    list, in list order; a scheduler's counter goes up by the number of
    times the scheduler is listed. *)
Lemma step_loop (ss : list nat) (w : world) :
  let r := for_each ss scheduler_step w in
  outcome r = Ok tt ∧
  trace (final r) = trace w ++ (SchedulerStep <$> ss) ∧
  ∀ s, last_epoch (scheds (final r) s)
       = last_epoch (scheds w s) + count_occ Nat.eq_dec ss s.
Proof.
  revert w. induction ss as [|s0 ss IH]; intros w.
  - simpl. split_and!; [done|by rewrite app_nil_r|]. intros s. lia.
  - rewrite run_for_each_cons, run_scheduler_step. cbv beta iota.
    set (w1 := set_optims _ _).
    destruct (IH w1) as (Hok & Htr & Hcount).
    split_and!; [exact Hok| |].
    + rewrite Htr. subst w1. simpl. by rewrite <- app_assoc.
    + intros s. rewrite Hcount. subst w1. simpl.
      destruct (Nat.eq_dec s0 s) as [->|Hne].
      * rewrite fn_lookup_insert. simpl. lia.
      * rewrite fn_lookup_insert_ne by done. lia.
Qed.

(** The second loop of [update_learning_rate], over any numbering of the
    optimizers: it changes nothing but the trace. *)
Lemma report_loop (verbose : bool) (ios : list (nat * nat)) (w : world) :
  Forall (λ io, param_groups (optims w io.2) ≠ []) ios →
  let r := for_each ios (λ '(i, optim),
             w ← get_world;
             match param_groups (optims w optim) with
             | [] => raise IndexError
             | lr :: _ => if verbose then print (MsgLearningRate (i + 1) lr) else mret tt
             end) w in
  outcome r = Ok tt ∧
  trace (final r) = trace w ++ (if verbose then report w <$> ios else []) ∧
  optims (final r) = optims w ∧ scheds (final r) = scheds w.
Proof.
  revert w. induction ios as [|[i optim] ios IH]; intros w Hall.
  - simpl. split_and!; try done. destruct verbose; by rewrite app_nil_r.
  - apply Forall_cons in Hall as [Hne Hall]. simpl in Hne.
    rewrite run_for_each_cons, run_bind.
    change (get_world w) with (Ok w, w). cbv beta iota.
    destruct (param_groups (optims w optim)) as [|lr lrs] eqn:Hgroups; [done|].
    destruct verbose.
    + change (print (MsgLearningRate (i + 1) lr) w)
        with (Ok tt, add_event (Print (MsgLearningRate (i + 1) lr)) w).
      cbv beta iota.
      destruct (IH (add_event (Print (MsgLearningRate (i + 1) lr)) w) Hall)
        as (Hok & Htr & Hopt & Hsch).
      split_and!; [exact Hok| |exact Hopt|exact Hsch].
      rewrite Htr. simpl. rewrite <- app_assoc. simpl.
      unfold report at 2. simpl. by rewrite Hgroups.
    + change (mret tt (M := M) w) with (Ok tt, w). cbv beta iota.
      destruct (IH w Hall) as (Hok & Htr & Hopt & Hsch). done.
Qed.

(** C7. [update_learning_rate] first calls [step] on every entry of
    [self.schedulers], once each and in list order, so that a scheduler's
    step counter grows by one per listing (by exactly one when the list has
    no repeats); then, when [verbose], it prints for each optimizer, numbered
    from 1, the learning rate of its first parameter group as the steps left
    it, and prints nothing otherwise. *)
Theorem update_learning_rate_steps_then_reports
    (self : BaseModel) (verbose : bool) (w : world) (ss os : list nat) :
  schedulers self = Some ss →
  optimizers self = Some os →
  let stepped := final (for_each ss scheduler_step w) in
  Forall (λ o, param_groups (optims stepped o) ≠ []) os →
  let r := update_learning_rate self verbose w in
  outcome r = Ok tt ∧
  run_events (update_learning_rate self verbose) w
    = (SchedulerStep <$> ss) ++ (if verbose then report stepped <$> enumerate os else []) ∧
  (∀ s, last_epoch (scheds (final r) s)
        = last_epoch (scheds w s) + count_occ Nat.eq_dec ss s) ∧
  (NoDup ss → ∀ s, s ∈ ss →
     last_epoch (scheds (final r) s) = S (last_epoch (scheds w s))) ∧
  optims (final r) = optims stepped.
Proof.
  intros Hss Hos stepped Hgroups r.
  destruct (step_loop ss w) as (Hok1 & Htr1 & Hcount).
  fold stepped in Htr1, Hcount.
  assert (Hios : Forall (λ io : nat * nat, param_groups (optims stepped io.2) ≠ [])
                        (enumerate os)).
  { unfold enumerate. apply Forall_forall. intros [i o] Hio.
    apply elem_of_zip_r in Hio. rewrite Forall_forall in Hgroups. by apply Hgroups. }
  destruct (report_loop verbose (enumerate os) stepped Hios) as (Hok2 & Htr2 & Hopt & Hsch).
  assert (Hr : r = for_each (enumerate os) (λ '(i, optim),
             w ← get_world;
             match param_groups (optims w optim) with
             | [] => raise IndexError
             | lr :: _ => if verbose then print (MsgLearningRate (i + 1) lr) else mret tt
             end) stepped).
  { unfold r, update_learning_rate. rewrite Hss, Hos.
    rewrite run_bind. change (read_attr "schedulers" (Some ss) w) with (Ok ss, w).
    cbv beta iota. rewrite run_bind.
    unfold outcome in Hok1. unfold stepped, final.
    destruct (for_each ss scheduler_step w) as [[[]|e] w1]; simpl in *; [|done].
    reflexivity. }
  rewrite <- Hr in Hok2, Htr2, Hopt, Hsch.
  assert (Hlast : ∀ s, last_epoch (scheds (final r) s)
                       = last_epoch (scheds w s) + count_occ Nat.eq_dec ss s).
  { intros s. rewrite Hsch. apply Hcount. }
  split_and!; [exact Hok2| |exact Hlast| |exact Hopt].
  - apply run_events_eq. fold r. rewrite Htr2, Htr1. by rewrite <- app_assoc.
  - intros Hnodup s Hs. rewrite Hlast.
    assert (count_occ Nat.eq_dec ss s = 1) as ->; [|lia].
    apply NoDup_count_occ'; [|by apply list_elem_of_In].
    by apply NoDup_ListNoDup.
Qed.

Lemma update_learning_rate_witness :
  run_events (update_learning_rate demo_model true) demo_world
  = [SchedulerStep 0; SchedulerStep 1;
     Print (MsgLearningRate 1 ((1 # 10) * (1 # 2))%Q);
     Print (MsgLearningRate 2 ((1 # 10) * (1 # 2))%Q)].
Proof.
  refine (proj1 (proj2 (update_learning_rate_steps_then_reports
            demo_model true demo_world [0; 1] [0; 1] eq_refl eq_refl _))).
  repeat constructor; simpl; discriminate.
Defined.

(** ** What a run adds to the trace *)

Lemma emits_ret {A : Type} (P : event → Prop) (a : A) : emits P (mret a).
Proof. intros w. exists []. split; [by rewrite app_nil_r|constructor]. Qed.

Lemma emits_raise {A : Type} (P : event → Prop) (e : exn) : emits P (raise (A := A) e).
Proof. intros w. exists []. split; [by rewrite app_nil_r|constructor]. Qed.

Lemma emits_lift {A : Type} (P : event → Prop) (r : result A) : emits P (lift r).
Proof. intros w. exists []. split; [by rewrite app_nil_r|constructor]. Qed.

Lemma emits_get_world (P : event → Prop) : emits P get_world.
Proof. intros w. exists []. split; [by rewrite app_nil_r|constructor]. Qed.

Lemma emits_modify (P : event → Prop) (f : world → world) :
  (∀ w, trace (f w) = trace w) → emits P (modify f).
Proof.
  intros Hf w. exists []. split; [|constructor].
  simpl. by rewrite Hf, app_nil_r.
Qed.

Lemma emits_emit (P : event → Prop) (e : event) : P e → emits P (emit e).
Proof. intros He w. exists [e]. split; [done|]. by repeat constructor. Qed.

Lemma emits_bind {A B : Type} (P : event → Prop) (m : M A) (f : A → M B) :
  emits P m → (∀ a, emits P (f a)) → emits P (m ≫= f).
Proof.
  intros Hm Hf w. rewrite run_bind.
  destruct (Hm w) as (evs1 & H1 & HP1).
  destruct (m w) as [[a|e] w1]; simpl in H1.
  - destruct (Hf a w1) as (evs2 & H2 & HP2).
    exists (evs1 ++ evs2). split; [|by apply Forall_app].
    by rewrite H2, H1, app_assoc.
  - by exists evs1.
Qed.

Lemma emits_for_each {A : Type} (P : event → Prop) (xs : list A) (body : A → M unit) :
  (∀ x, emits P (body x)) → emits P (for_each xs body).
Proof.
  intros Hbody. induction xs as [|x xs IH]; simpl.
  - apply emits_ret.
  - apply emits_bind; [apply Hbody|]. intros _. exact IH.
Qed.

Lemma emits_try_except (P : event → Prop) (body : M unit) (handler : exn → M unit) :
  emits P body → (∀ e, emits P (handler e)) → emits P (try_except body handler).
Proof.
  intros Hbody Hhandler w. unfold try_except.
  destruct (Hbody w) as (evs1 & H1 & HP1).
  destruct (body w) as [[u|e] w1]; simpl in H1.
  - by exists evs1.
  - destruct (Hhandler e w1) as (evs2 & H2 & HP2).
    exists (evs1 ++ evs2). split; [|by apply Forall_app].
    by rewrite H2, H1, app_assoc.
Qed.

Lemma emits_weaken {A : Type} (P Q : event → Prop) (m : M A) :
  (∀ e, P e → Q e) → emits P m → emits Q m.
Proof.
  intros HPQ Hm w. destruct (Hm w) as (evs & H & HP).
  exists evs. split; [done|]. by eapply Forall_impl.
Qed.

Create HintDb emits.

(** Breaks a method into its statements, by the head of the computation. *)
Ltac emits_step :=
  lazymatch goal with
  | |- ∀ _, _ => intros ?
  | |- emits _ (mret _) => apply emits_ret
  | |- emits _ (raise _) => apply emits_raise
  | |- emits _ (lift _) => apply emits_lift
  | |- emits _ get_world => apply emits_get_world
  | |- emits _ (emit _) => apply emits_emit; done
  | |- emits _ (modify _) => apply emits_modify; done
  | |- emits _ (mbind _ _) => apply emits_bind
  | |- emits _ (for_each _ _) => apply emits_for_each
  | |- emits _ (try_except _ _) => apply emits_try_except
  | |- emits _ (match ?x with _ => _ end) => destruct x
  | |- emits _ _ => first [ progress cbv zeta | solve [auto with emits nocore] ]
  end.

Ltac emits_auto := repeat emits_step.

Lemma emits_load_one (strict : bool) (net : module) (load_path : string) :
  emits (loads_with strict) (load_one net load_path strict).
Proof. unfold load_one, os_path_isfile, torch_load, load_state_dict, print. emits_auto. Qed.

#[local] Hint Resolve emits_load_one : emits.

Lemma emits_load_subnetworks (self : BaseModel) (epoch : pyval)
    (names : option (list string)) (resume_dir : option string) :
  emits (loads_with true) (load_subnetworks self epoch names resume_dir).
Proof.
  unfold load_subnetworks, get_subnetworks, join_dir. emits_auto.
Qed.

Lemma emits_load_networks (self : BaseModel) (epoch : pyval) :
  emits (loads_with false) (load_networks self epoch).
Proof.
  unfold load_networks, join_dir, print. emits_auto.
Qed.



Lemma loads_with_no_call (strict : bool) (e : event) : loads_with strict e → no_call e.
Proof. by destruct e. Qed.

(** ** The calls [setup] makes *)

Lemma calls_of_app (evs1 evs2 : list event) :
  calls_of (evs1 ++ evs2) = calls_of evs1 ++ calls_of evs2.
Proof. apply omap_app. Qed.

Lemma calls_of_no_call (evs : list event) : Forall no_call evs → calls_of evs = [].
Proof.
  induction 1 as [|e evs He _ IH]; [done|].
  destruct e; simpl in *; done.
Qed.

Lemma adds_calls_quiet {A : Type} (m : M A) : emits no_call m → adds_calls m [].
Proof.
  intros Hm w. destruct (Hm w) as (evs & Htr & Hall).
  exists evs. rewrite (calls_of_no_call evs Hall). done.
Qed.

Lemma adds_calls_enter (c : call) : adds_calls (emit (Enter c)) [c].
Proof. intros w. exists [Enter c]. done. Qed.

Lemma adds_calls_raise {A : Type} (e : exn) (cs : list call) : adds_calls (raise (A := A) e) cs.
Proof.
  intros w. exists []. split_and!; [by rewrite app_nil_r|apply prefix_nil|done].
Qed.

Lemma adds_calls_bind {A B : Type} (m : M A) (f : A → M B) (Q : A → Prop)
    (cs1 cs2 : list call) :
  adds_calls m cs1 →
  (∀ w a w', m w = (Ok a, w') → Q a) →
  (∀ a, Q a → adds_calls (f a) cs2) →
  adds_calls (m ≫= f) (cs1 ++ cs2).
Proof.
  intros Hm HQ Hf w. rewrite run_bind.
  destruct (Hm w) as (evs1 & Htr1 & Hpre1 & Hret1).
  destruct (m w) as [[a|e] w1] eqn:Hrun; simpl in Htr1.
  - destruct (Hf a (HQ w a w1 Hrun) w1) as (evs2 & Htr2 & Hpre2 & Hret2).
    exists (evs1 ++ evs2). rewrite calls_of_app, (Hret1 eq_refl).
    split_and!.
    + by rewrite Htr2, Htr1, app_assoc.
    + by apply prefix_app.
    + intros Hret. by rewrite (Hret2 Hret).
  - exists evs1. split_and!; [done|by apply prefix_app_r|done].
Qed.

Lemma adds_calls_seq {A B : Type} (m : M A) (k : M B) (cs1 cs2 : list call) :
  adds_calls m cs1 → adds_calls k cs2 → adds_calls (m ;; k) (cs1 ++ cs2).
Proof.
  intros Hm Hk. apply (adds_calls_bind m (λ _, k) (λ _, True)); done.
Qed.


Section SetupCalls.

Variable get_scheduler : nat → options → result scheduler.




Lemma adds_calls_setup_load_subnetworks (self : BaseModel) (o : options) :
  adds_calls (setup_load_subnetworks self o) (plan_load_subnetworks o).
Proof.
  unfold setup_load_subnetworks, plan_load_subnetworks.
  destruct (truthy (opt_load_subnetworks_dir o)); [|apply adds_calls_quiet, emits_ret].
  destruct (opt_load_subnetworks o) as [s|]; simpl.
  - change (mret (split_comma s) ≫= _) with
      (emit (Enter (LoadSubnetworks (opt_load_subnetworks_epoch o) (split_comma s)
                                    (opt_load_subnetworks_dir o))) ;;
       (load_subnetworks self (opt_load_subnetworks_epoch o) (Some (split_comma s))
                         (opt_load_subnetworks_dir o) ;;
        print (MsgLoadingPretrained (split_comma s)))).
    rewrite <- (app_nil_r [LoadSubnetworks _ _ _]).
    apply adds_calls_seq; [apply adds_calls_enter|].
    apply adds_calls_quiet. unfold print. emits_auto.
    eapply emits_weaken; [apply loads_with_no_call|apply emits_load_subnetworks].
  - change (raise _ ≫= _) with (raise (A := unit) (AttributeError "split")).
    apply adds_calls_raise.
Qed.





End SetupCalls.

Section SetupOrder.

Variable get_scheduler : nat → options → result scheduler.










End SetupOrder.




(** ** The registry getters *)

(** A loop whose body either fails with the error of its item or extends
    the accumulator stops at the first item that has an error. *)
Lemma fold_result_first_error {B : Type} (f : B → pyval → result B)
    (err : pyval → option exn) (names : list pyval) (acc : B) :
  (∀ acc name e, err name = Some e → f acc name = Raise e) →
  (∀ acc name, err name = None → ∃ acc', f acc name = Ok acc') →
  match first_error err names with
  | Some e => fold_result f names acc = Raise e
  | None => ∃ ret, fold_result f names acc = Ok ret
  end.
Proof.
  intros Hfail Hok. revert acc.
  induction names as [|name names IH]; intros acc; simpl.
  - by exists acc.
  - destruct (err name) as [e|] eqn:Herr.
    + by rewrite (Hfail acc name e Herr).
    + destruct (Hok acc name Herr) as [acc' ->]. apply IH.
Qed.

Lemma first_error_some (err : pyval → option exn) (names : list pyval) (name : pyval) :
  name ∈ names → is_Some (err name) → is_Some (first_error err names).
Proof.
  induction names as [|name0 names IH]; intros Hin Herr.
  - by apply elem_of_nil in Hin.
  - simpl. destruct (err name0) as [e|] eqn:Herr0; [by eexists|].
    apply elem_of_cons in Hin as [->|Hin]; [|by apply IH].
    rewrite Herr0 in Herr. by destruct Herr.
Qed.

Lemma get_networks_first_error (self : BaseModel) :
  match first_error (net_error self) (model_names self) with
  | Some e => get_networks self = Raise e
  | None => ∃ nets, get_networks self = Ok nets
  end.
Proof.
  apply fold_result_first_error; unfold net_error, getattr.
  - intros acc [] e; simpl; try (by intros [= <-]).
    destruct (attrs self !! _) as [[]|]; by intros [= <-].
  - intros acc [] ; simpl; try done.
    destruct (attrs self !! _) as [[]|]; try done. by eexists.
Qed.

Lemma get_current_losses_first_error (self : BaseModel) :
  match first_error (loss_error self) (loss_names self) with
  | Some e => get_current_losses self = Raise e
  | None => ∃ ret, get_current_losses self = Ok ret
  end.
Proof.
  apply fold_result_first_error; unfold loss_error, getattr.
  - intros acc [] e; simpl; try (by intros [= <-]).
    destruct (attrs self !! _); by intros [= <-].
  - intros acc []; simpl; try done.
    destruct (attrs self !! _); try done. by eexists.
Qed.

Lemma get_current_visuals_first_error (self : BaseModel) :
  match first_error (visual_error self) (visual_names self) with
  | Some e => get_current_visuals self = Raise e
  | None => ∃ ret, get_current_visuals self = Ok ret
  end.
Proof.
  apply fold_result_first_error; unfold visual_error, getattr.
  - intros acc [] e; simpl; try (by intros [= <-]).
    destruct (attrs self !! _); by intros [= <-].
  - intros acc []; simpl; try done.
    destruct (attrs self !! _); try done. by eexists.
Qed.

(** C3 (amended). If a name registered in [model_names], [loss_names] or
    [visual_names] is not backed, the getter of that list raises, and what
    it raises is the error of the first unbacked name of the list: an
    [AttributeError] for a string whose attribute ([net_<name>],
    [loss_<name>], [<name>]) does not exist, an [AssertionError] for a name
    that is no string and, in [get_networks] only, for an attribute that is
    no network. *)
Theorem getters_raise_on_unbacked_name (self : BaseModel) :
  (∀ name, name ∈ model_names self → is_Some (net_error self name) →
     ∃ e, first_error (net_error self) (model_names self) = Some e ∧
          get_networks self = Raise e) ∧
  (∀ name, name ∈ loss_names self → is_Some (loss_error self name) →
     ∃ e, first_error (loss_error self) (loss_names self) = Some e ∧
          get_current_losses self = Raise e) ∧
  (∀ name, name ∈ visual_names self → is_Some (visual_error self name) →
     ∃ e, first_error (visual_error self) (visual_names self) = Some e ∧
          get_current_visuals self = Raise e) ∧
  (∀ s, attrs self !! ("net_" +:+ s) = None →
     net_error self (VStr s) = Some (AttributeError ("net_" +:+ s))) ∧
  (∀ s, attrs self !! ("loss_" +:+ s) = None →
     loss_error self (VStr s) = Some (AttributeError ("loss_" +:+ s))) ∧
  (∀ s, attrs self !! s = None →
     visual_error self (VStr s) = Some (AttributeError s)).
Proof.
  split_and!.
  - intros name Hin Herr.
    destruct (first_error_some _ _ _ Hin Herr) as [e He].
    pose proof (get_networks_first_error self) as H. rewrite He in H. by exists e.
  - intros name Hin Herr.
    destruct (first_error_some _ _ _ Hin Herr) as [e He].
    pose proof (get_current_losses_first_error self) as H. rewrite He in H. by exists e.
  - intros name Hin Herr.
    destruct (first_error_some _ _ _ Hin Herr) as [e He].
    pose proof (get_current_visuals_first_error self) as H. rewrite He in H. by exists e.
  - intros s Hs. unfold net_error. simpl. by rewrite Hs.
  - intros s Hs. unfold loss_error. simpl. by rewrite Hs.
  - intros s Hs. unfold visual_error. simpl. by rewrite Hs.
Qed.

(** C3 (as stated, refuted). A registered name whose attribute is missing
    makes each getter raise an [AttributeError], not an [AssertionError]. *)
Lemma getters_counterexample :
  attrs demo_model_unbacked !! "net_b" = None ∧
  get_networks demo_model_unbacked = Raise (AttributeError "net_b") ∧
  get_networks demo_model_unbacked ≠ Raise AssertionError ∧
  get_current_losses demo_model_unbacked = Raise (AttributeError "loss_total") ∧
  get_current_losses demo_model_unbacked ≠ Raise AssertionError ∧
  get_current_visuals demo_model_unbacked = Raise (AttributeError "img") ∧
  get_current_visuals demo_model_unbacked ≠ Raise AssertionError.
Proof.
  assert (Hn : get_networks demo_model_unbacked = Raise (AttributeError "net_b"))
    by (vm_compute; reflexivity).
  assert (Hl : get_current_losses demo_model_unbacked = Raise (AttributeError "loss_total"))
    by (vm_compute; reflexivity).
  assert (Hv : get_current_visuals demo_model_unbacked = Raise (AttributeError "img"))
    by (vm_compute; reflexivity).
  split_and!; try assumption.
  - vm_compute. reflexivity.
  - rewrite Hn. discriminate.
  - rewrite Hl. discriminate.
  - rewrite Hv. discriminate.
Qed.

Lemma getters_raise_witness :
  get_networks demo_model_unbacked = Raise (AttributeError "net_b").
Proof.
  destruct (proj1 (getters_raise_on_unbacked_name demo_model_unbacked) (VStr "b"))
    as (e & He & Hrun).
  - apply list_elem_of_further, list_elem_of_here.
  - vm_compute. by eexists.
  - rewrite Hrun. f_equal. vm_compute in He. by injection He as <-.
Defined.

(** ** Paths *)






(** ** Saving *)

Lemma for_each_ext {A : Type} (xs : list A) (body1 body2 : A → M unit) :
  (∀ x, body1 x = body2 x) → for_each xs body1 = for_each xs body2.
Proof.
  intros Hext. induction xs as [|x xs IH]; simpl; [done|]. by rewrite Hext, IH.
Qed.

Lemma run_torch_save (obj : gmap string item) (path : string) (w : world) :
  torch_save obj path w =
    match write_error w path with
    | Some e => (Raise e, add_event (TorchSave path) w)
    | None => (Ok tt, set_files (insert path (Pickled obj)) (add_event (TorchSave path) w))
    end.
Proof.
  unfold torch_save. rewrite run_bind.
  change (emit (TorchSave path) w) with (Ok tt, add_event (TorchSave path) w).
  cbv beta iota. rewrite run_bind.
  change (get_world (add_event (TorchSave path) w))
    with (Ok (add_event (TorchSave path) w), add_event (TorchSave path) w).
  cbv beta iota.
  change (write_error (add_event (TorchSave path) w) path) with (write_error w path).
  destruct (write_error w path); reflexivity.
Qed.

Lemma run_save_one (net : module) (path : string) (w : world) :
  save_one net path w =
    (Ok tt,
     match write_error w path with
     | Some e => add_event (Print (MsgException e)) (add_event (TorchSave path) w)
     | None => set_files (insert path (Pickled (state_dict_at w (unwrap net))))
                         (add_event (TorchSave path) w)
     end).
Proof.
  unfold save_one, try_except, state_dict. rewrite !run_bind.
  change (get_world w) with (Ok w, w). cbv beta iota.
  change (mret (M := M) (state_dict_at w (unwrap net)) w)
    with (Ok (state_dict_at w (unwrap net)), w).
  cbv beta iota. rewrite run_torch_save.
  destruct (write_error w path) as [e|]; reflexivity.
Qed.

(** The loop shared by [save_subnetworks] and [save_networks], over items
    that give a network [g x] and a path [h x]: it always returns; it calls
    [torch.save] once per item, in order, and prints the exception of each
    write that raises; it writes no other path and removes no file. *)
Lemma save_loop {X : Type} (g : X → module) (h : X → string) (xs : list X) (w : world) :
  let r := for_each xs (λ x, save_one (g x) (h x)) w in
  outcome r = Ok tt ∧
  trace (final r) = trace w ++ (xs ≫= λ x, save_events w (h x)) ∧
  write_error (final r) = write_error w ∧
  (∀ p, p ∉ h <$> xs → files (final r) !! p = files w !! p) ∧
  (∀ p, is_Some (files w !! p) → is_Some (files (final r) !! p)) ∧
  (∀ x, x ∈ xs → write_error w (h x) = None → is_Some (files (final r) !! h x)).
Proof.
  revert w. induction xs as [|x xs IH]; intros w.
  - simpl. split_and!; try done.
    + by rewrite app_nil_r.
    + intros x Hx. by apply elem_of_nil in Hx.
  - rewrite run_for_each_cons, run_save_one. cbv beta iota.
    set (w1 := match write_error w (h x) with Some _ => _ | None => _ end).
    assert (Hw1 : write_error w1 = write_error w ∧
                  trace w1 = trace w ++ save_events w (h x) ∧
                  (∀ p, p ≠ h x → files w1 !! p = files w !! p) ∧
                  (∀ p, is_Some (files w !! p) → is_Some (files w1 !! p)) ∧
                  (write_error w (h x) = None → is_Some (files w1 !! h x))).
    { subst w1. unfold save_events.
      destruct (write_error w (h x)) as [e|]; simpl; split_and!; try done.
      - by rewrite <- app_assoc.
      - intros p Hp. by rewrite lookup_insert_ne.
      - intros p Hp. destruct (decide (h x = p)) as [->|Hne].
        + rewrite lookup_insert_eq. by eexists.
        + by rewrite lookup_insert_ne.
      - intros _. rewrite lookup_insert_eq. by eexists. }
    destruct Hw1 as (Herr1 & Htr1 & Hother1 & Hmono1 & Hwritten1).
    destruct (IH w1) as (Hok & Htr & Herr & Hother & Hmono & Hwritten).
    split_and!.
    + exact Hok.
    + assert (Hsame : xs ≫= (λ y, save_events w1 (h y)) = xs ≫= (λ y, save_events w (h y))).
      { apply list_bind_ext; [|done]. intros y. unfold save_events. by rewrite Herr1. }
      rewrite Htr, Hsame, Htr1, bind_cons. by rewrite <- app_assoc.
    + by rewrite Herr.
    + intros p Hp. rewrite fmap_cons in Hp. apply not_elem_of_cons in Hp as [Hne Hp].
      rewrite (Hother p Hp). by apply Hother1.
    + intros p Hp. by apply Hmono, Hmono1.
    + intros y Hy Hnone. apply elem_of_cons in Hy as [->|Hy].
      * by apply Hmono, Hwritten1.
      * apply Hwritten; [done|]. by rewrite Herr1.
Qed.


Lemma printed_exceptions_save_events {X : Type} (h : X → string) (xs : list X) (w : world) :
  printed_exceptions (xs ≫= λ x, save_events w (h x)) = omap (λ x, write_error w (h x)) xs.
Proof.
  induction xs as [|x xs IH]; [done|].
  rewrite bind_cons. unfold printed_exceptions in *. rewrite omap_app, IH.
  unfold save_events. simpl. destruct (write_error w (h x)); done.
Qed.

(** The path [save_subnetworks] writes a subnetwork to, and the path
    [save_networks] writes a registered network to. *)
Lemma run_save_subnetworks (self : BaseModel) (epoch : pyval) (w : world)
    (nets : list (string * module)) :
  subnetworks self = Some nets →
  save_subnetworks self epoch w =
    for_each nets (λ x, save_one x.2
      (os_path_join (save_dir self) (subnet_filename epoch x.1))) w.
Proof.
  intros Hnets. unfold save_subnetworks, get_subnetworks. rewrite Hnets.
  rewrite run_bind. change (mret (M := M) nets w) with (Ok nets, w). cbv beta iota.
  by rewrite (for_each_ext nets _ (λ x, save_one x.2
                (os_path_join (save_dir self) (subnet_filename epoch x.1))))
    by (by intros [name net]).
Qed.

Lemma fold_result_length {A B : Type} (f : list B → A → result (list B))
    (xs : list A) (acc ret : list B) :
  (∀ acc x acc', f acc x = Ok acc' → length acc' = S (length acc)) →
  fold_result f xs acc = Ok ret → length ret = length acc + length xs.
Proof.
  intros Hf. revert acc. induction xs as [|x xs IH]; intros acc; simpl.
  - intros [= <-]. lia.
  - destruct (f acc x) as [acc'|e] eqn:Hstep; [|done].
    intros Hrest. rewrite (IH acc' Hrest), (Hf acc x acc' Hstep). lia.
Qed.

Lemma get_networks_length (self : BaseModel) (nets : list module) :
  get_networks self = Ok nets → length nets = length (model_names self).
Proof.
  unfold get_networks. intros Hrun.
  apply fold_result_length in Hrun; [done|].
  intros acc name acc'. unfold assert_, getattr.
  destruct (is_str name); simpl; [|done].
  destruct (attrs self !! _) as [[]|]; simpl; try done.
  intros [= <-]. rewrite length_app. simpl. lia.
Qed.

Lemma run_save_networks (self : BaseModel) (epoch : pyval)
    (other_states : gmap string item) (w : world) (nets : list module) :
  get_networks self = Ok nets →
  save_networks self epoch other_states w =
    torch_save other_states (os_path_join (save_dir self) (states_filename epoch))
      (final (for_each (zip (model_names self) nets) (λ x, save_one x.2
                (os_path_join (save_dir self) (net_filename epoch x.1))) w)).
Proof.
  intros Hnets. unfold save_networks. rewrite Hnets.
  rewrite run_bind. change (lift (Ok nets) w) with (Ok nets, w). cbv beta iota.
  rewrite run_bind.
  rewrite (for_each_ext _ _ (λ x, save_one x.2
             (os_path_join (save_dir self) (net_filename epoch x.1))))
    by (by intros [name net]).
  destruct (save_loop snd (λ x, os_path_join (save_dir self) (net_filename epoch x.1))
              (zip (model_names self) nets) w) as (Hok & _).
  unfold outcome, final in *.
  destruct (for_each _ _ w) as [[[]|e] w1]; simpl in *; [reflexivity|done].
Qed.


Lemma omap_fmap_compose {A B C : Type} (f : B → option C) (g : A → B) (l : list A) :
  omap f (g <$> l) = omap (λ x, f (g x)) l.
Proof.
  induction l as [|x l IH]; [done|]. csimpl. by rewrite IH.
Qed.

(** What a run of [save_subnetworks] adds to the trace. *)
Lemma save_subnetworks_events (self : BaseModel) (epoch : pyval) (w : world)
    (nets : list (string * module)) :
  subnetworks self = Some nets →
  outcome (save_subnetworks self epoch w) = Ok tt ∧
  run_events (save_subnetworks self epoch) w
    = nets ≫= (λ x, save_events w (os_path_join (save_dir self) (subnet_filename epoch x.1))).
Proof.
  intros Hnets.
  destruct (save_loop snd (λ x, os_path_join (save_dir self) (subnet_filename epoch x.1))
              nets w) as (Hok & Htr & _).
  rewrite <- (run_save_subnetworks self epoch w nets Hnets) in Hok, Htr.
  split; [exact Hok|]. by apply run_events_eq.
Qed.

(** What a run of [save_networks] adds to the trace, and how it ends: the
    last write is not guarded. *)
Lemma save_networks_events (self : BaseModel) (epoch : pyval)
    (other_states : gmap string item) (w : world) (nets : list module) :
  get_networks self = Ok nets →
  let states_path := os_path_join (save_dir self) (states_filename epoch) in
  outcome (save_networks self epoch other_states w)
    = match write_error w states_path with
      | Some e => Raise e
      | None => Ok tt
      end ∧
  run_events (save_networks self epoch other_states) w
    = (zip (model_names self) nets
         ≫= (λ x, save_events w (os_path_join (save_dir self) (net_filename epoch x.1))))
      ++ [TorchSave states_path].
Proof.
  intros Hnets states_path.
  destruct (save_loop snd (λ x, os_path_join (save_dir self) (net_filename epoch x.1))
              (zip (model_names self) nets) w) as (_ & Htr & Herr & _).
  rewrite (run_save_networks self epoch other_states w nets Hnets) at 1.
  unfold run_events.
  rewrite (run_save_networks self epoch other_states w nets Hnets).
  rewrite run_torch_save. fold states_path. rewrite Herr.
  destruct (write_error w states_path) as [e|]; simpl;
    (split; [done|]); rewrite Htr, <- app_assoc; apply drop_app_length.
Qed.

(** C2 (amended). An exception raised while the state of a registered
    network or of a subnetwork is written is caught and printed, and the
    loop goes on: [save_subnetworks] returns normally whenever
    [get_subnetworks] gives its dictionary, having printed the exception of
    each failed write, in order; [save_networks] returns normally, having
    printed those exceptions, whenever the registry resolves and the final
    write of the other-states file succeeds. *)
Theorem save_catches_network_exceptions (self : BaseModel) (epoch : pyval) (w : world) :
  (∀ nets, subnetworks self = Some nets →
     outcome (save_subnetworks self epoch w) = Ok tt ∧
     printed_exceptions (run_events (save_subnetworks self epoch) w)
       = omap (λ x, write_error w (os_path_join (save_dir self) (subnet_filename epoch x.1)))
              nets) ∧
  (∀ other_states nets,
     get_networks self = Ok nets →
     write_error w (os_path_join (save_dir self) (states_filename epoch)) = None →
     outcome (save_networks self epoch other_states w) = Ok tt ∧
     printed_exceptions (run_events (save_networks self epoch other_states) w)
       = omap (λ name, write_error w (os_path_join (save_dir self) (net_filename epoch name)))
              (model_names self)).
Proof.
  split.
  - intros nets Hnets.
    destruct (save_subnetworks_events self epoch w nets Hnets) as [Hok ->].
    split; [exact Hok|]. apply printed_exceptions_save_events.
  - intros other_states nets Hnets Hstates.
    destruct (save_networks_events self epoch other_states w nets Hnets) as [Hok ->].
    rewrite Hstates in Hok. split; [exact Hok|].
    unfold printed_exceptions. rewrite omap_app. simpl. rewrite app_nil_r.
    fold (printed_exceptions
            (zip (model_names self) nets
               ≫= (λ x, save_events w (os_path_join (save_dir self) (net_filename epoch x.1))))).
    rewrite (printed_exceptions_save_events
               (λ x : pyval * module, os_path_join (save_dir self) (net_filename epoch x.1))).
    rewrite <- (omap_fmap_compose
                  (λ name, write_error w (os_path_join (save_dir self) (net_filename epoch name)))
                  fst).
    rewrite fst_zip; [done|]. by rewrite (get_networks_length self nets Hnets).
Qed.

(** The write of [a]'s checkpoint fails: the exception is printed and
    [save_networks] returns. *)
Lemma save_catches_witness :
  outcome (save_networks demo_model (VInt 3) ∅ demo_world_bad_file) = Ok tt ∧
  printed_exceptions (run_events (save_networks demo_model (VInt 3) ∅) demo_world_bad_file)
    = [OSError "Permission denied"].
Proof.
  refine (proj2 (save_catches_network_exceptions demo_model (VInt 3) demo_world_bad_file)
            ∅ [demo_net_a] _ _).
  - vm_compute. reflexivity.
  - reflexivity.
Defined.

(** C2 (as stated, refuted). On a full disk the exception of the network's
    write is caught and printed, but the exception of the write of the
    other-states file reaches the caller: [save_networks] does not return
    normally. *)
Lemma save_networks_counterexample :
  get_networks demo_model = Ok [demo_net_a] ∧
  printed_exceptions (run_events (save_networks demo_model (VInt 3) ∅) demo_world_full_disk)
    = [OSError "No space left on device"] ∧
  outcome (save_networks demo_model (VInt 3) ∅ demo_world_full_disk)
    = Raise (OSError "No space left on device") ∧
  returns (save_networks demo_model (VInt 3) ∅ demo_world_full_disk) = false.
Proof. vm_compute. repeat split. Qed.







(** ** Loading *)

(** The copying pass of [load_state_dict]: shapes stay, and the error flag
    is raised exactly when an entry does not fit. *)
Lemma load_params_fold (sd : gmap string item) (ps : nat → param)
    (nps : list (string * nat)) (acc : (nat → param) * bool) :
  (∀ l, length (data (acc.1 l)) = length (data (ps l))) →
  let loaded := foldl (λ acc kp, load_param sd kp acc) acc nps in
  (∀ l, length (data (loaded.1 l)) = length (data (ps l))) ∧
  loaded.2 = acc.2 || negb (forallb (entry_fits ps sd) nps).
Proof.
  revert acc. induction nps as [|[k l0] nps IH]; intros [store flag] Hshape; simpl.
  - split; [done|]. by rewrite orb_false_r.
  - simpl in Hshape.
    assert (Hstep : (∀ l, length (data ((load_param sd (k, l0) (store, flag)).1 l))
                          = length (data (ps l))) ∧
                    (load_param sd (k, l0) (store, flag)).2
                    = flag || negb (entry_fits ps sd (k, l0))).
    { unfold load_param, entry_fits. simpl.
      destruct (sd !! k) as [[t|v]|]; simpl.
      - rewrite Hshape. case_bool_decide as Hlen; simpl.
        + split; [|by rewrite orb_false_r]. intros l.
          destruct (decide (l0 = l)) as [->|Hne].
          * rewrite fn_lookup_insert. simpl. done.
          * rewrite fn_lookup_insert_ne by done. apply Hshape.
        + split; [done|]. by rewrite orb_true_r.
      - split; [done|]. by rewrite orb_true_r.
      - split; [done|]. by rewrite orb_false_r. }
    destruct Hstep as [Hshape' Hflag'].
    destruct (IH (load_param sd (k, l0) (store, flag)) Hshape') as [Hshape'' Hflag''].
    split; [exact Hshape''|].
    rewrite Hflag'', Hflag'. destruct flag, (entry_fits ps sd (k, l0)); done.
Qed.

Lemma run_load_state_dict (net : module) (sd : gmap string item) (strict : bool) (w : world) :
  ∃ w', load_state_dict net sd strict w
        = (if loadable w net sd strict then Ok tt
           else Raise (RuntimeError "Error(s) in loading state_dict"), w') ∧
        trace w' = trace w ++ [LoadStateDict net sd strict] ∧
        same_shapes w w'.
Proof.
  destruct (load_params_fold sd (params w) (named_parameters net) (params w, false))
    as [Hshape Hflag]; [done|].
  simpl in Hflag.
  exists (set_params
            (λ _, (foldl (λ acc kp, load_param sd kp acc) (params w, false)
                         (named_parameters net)).1)
            (add_event (LoadStateDict net sd strict) w)).
  split_and!.
  - unfold load_state_dict. rewrite run_bind.
    change (emit (LoadStateDict net sd strict) w)
      with (Ok tt, add_event (LoadStateDict net sd strict) w).
    cbv beta iota. rewrite run_bind.
    change (get_world (add_event (LoadStateDict net sd strict) w))
      with (Ok (add_event (LoadStateDict net sd strict) w),
            add_event (LoadStateDict net sd strict) w).
    cbv beta iota zeta. rewrite run_bind.
    change (params (add_event (LoadStateDict net sd strict) w)) with (params w).
    rewrite Hflag.
    unfold loadable, entries_ok, keys_match.
    destruct (forallb (entry_fits (params w) sd) (named_parameters net)); simpl.
    + destruct strict; simpl; [|reflexivity].
      destruct (bool_decide _); reflexivity.
    + reflexivity.
  - done.
  - split; [done|]. exact Hshape.
Qed.

Lemma same_shapes_refl (w : world) : same_shapes w w.
Proof. by split. Qed.

Lemma same_shapes_trans (w1 w2 w3 : world) :
  same_shapes w1 w2 → same_shapes w2 w3 → same_shapes w1 w3.
Proof.
  intros [Hf1 Hs1] [Hf2 Hs2]. split; [by rewrite Hf2|].
  intros l. by rewrite Hs2.
Qed.

Lemma same_shapes_add_event (e : event) (w : world) : same_shapes w (add_event e w).
Proof. by split. Qed.

Lemma entry_fits_shapes (ps ps' : nat → param) (sd : gmap string item) (kp : string * nat) :
  (∀ l, length (data (ps' l)) = length (data (ps l))) →
  entry_fits ps' sd kp = entry_fits ps sd kp.
Proof.
  intros Hshape. unfold entry_fits. destruct (sd !! kp.1) as [[t|v]|]; [|done|done].
  by rewrite Hshape.
Qed.

Lemma file_loadable_same_shapes (w w' : world) (strict : bool) (path : string) (net : module) :
  same_shapes w w' → file_loadable w' strict path net = file_loadable w strict path net.
Proof.
  intros [Hfiles Hshape]. unfold file_loadable. rewrite Hfiles.
  destruct (files w !! path) as [[sd|]|]; [|done|done].
  unfold loadable, entries_ok. f_equal.
  induction (named_parameters (unwrap net)) as [|kp nps IH]; [done|].
  simpl. by rewrite IH, (entry_fits_shapes (params w) (params w')).
Qed.

Lemma load_events_same_shapes (w w' : world) (strict : bool) (path : string) (net : module) :
  same_shapes w w' → load_events w' strict path net = load_events w strict path net.
Proof. intros [Hfiles _]. unfold load_events. by rewrite Hfiles. Qed.

(** One load, from the [isfile] test on. *)
Lemma run_load_one (net : module) (path : string) (strict : bool) (w : world) :
  ∃ w', load_one net path strict w
        = (if file_loadable w strict path net then Ok tt
           else match files w !! path with
                | Some Corrupt => Raise UnpicklingError
                | _ => Raise (RuntimeError "Error(s) in loading state_dict")
                end, w') ∧
        trace w' = trace w ++ load_events w strict path net ∧
        same_shapes w w'.
Proof.
  unfold load_one, file_loadable, load_events, os_path_isfile.
  rewrite !run_bind. change (get_world w) with (Ok w, w). cbv beta iota.
  change (mret (M := M) (bool_decide (is_Some (files w !! path))) w)
    with (Ok (bool_decide (is_Some (files w !! path))), w).
  cbv beta iota.
  destruct (files w !! path) as [[sd|]|] eqn:Hfile.
  - rewrite bool_decide_true by (by eexists). simpl.
    unfold torch_load. rewrite !run_bind.
    change (emit (TorchLoad path) w) with (Ok tt, add_event (TorchLoad path) w).
    cbv beta iota. rewrite !run_bind.
    change (get_world (add_event (TorchLoad path) w))
      with (Ok (add_event (TorchLoad path) w), add_event (TorchLoad path) w).
    cbv beta iota.
    change (files (add_event (TorchLoad path) w)) with (files w). rewrite Hfile.
    change (mret (M := M) sd (add_event (TorchLoad path) w))
      with (Ok sd, add_event (TorchLoad path) w).
    cbv beta iota.
    destruct (run_load_state_dict (unwrap net) sd strict (add_event (TorchLoad path) w))
      as (w' & Hrun & Htr & Hshape).
    exists w'. split_and!.
    + rewrite Hrun. unfold loadable, entries_ok. simpl. done.
    + rewrite Htr. simpl. by rewrite <- app_assoc.
    + eapply same_shapes_trans; [apply (same_shapes_add_event (TorchLoad path))|done].
  - rewrite bool_decide_true by (by eexists). simpl.
    unfold torch_load. rewrite !run_bind.
    change (emit (TorchLoad path) w) with (Ok tt, add_event (TorchLoad path) w).
    cbv beta iota. rewrite !run_bind.
    change (get_world (add_event (TorchLoad path) w))
      with (Ok (add_event (TorchLoad path) w), add_event (TorchLoad path) w).
    cbv beta iota.
    change (files (add_event (TorchLoad path) w)) with (files w). rewrite Hfile.
    eexists. split_and!; [reflexivity|done|apply same_shapes_add_event].
  - rewrite bool_decide_false by (by intros [? ?]). simpl.
    eexists. split_and!; [reflexivity|done|apply same_shapes_add_event].
Qed.

(** The loop shared by [load_subnetworks] and [load_networks], over items
    that give a network [g x] and a path [h x]: when every file that
    exists can be loaded it returns, having printed a line for each missing
    file and loaded each file that exists, in order. *)
Lemma load_loop {X : Type} (g : X → module) (h : X → string) (strict : bool)
    (xs : list X) (w : world) :
  forallb (λ x, file_loadable w strict (h x) (g x)) xs = true →
  let r := for_each xs (λ x, load_one (g x) (h x) strict) w in
  outcome r = Ok tt ∧
  trace (final r) = trace w ++ (xs ≫= λ x, load_events w strict (h x) (g x)) ∧
  same_shapes w (final r).
Proof.
  revert w. induction xs as [|x xs IH]; intros w Hall.
  - simpl. split_and!; [done|by rewrite app_nil_r|apply same_shapes_refl].
  - simpl in Hall. apply andb_prop in Hall as [Hx Hall].
    rewrite run_for_each_cons.
    destruct (run_load_one (g x) (h x) strict w) as (w1 & Hrun & Htr1 & Hshape1).
    rewrite Hrun, Hx. cbv beta iota.
    assert (Hall1 : forallb (λ y, file_loadable w1 strict (h y) (g y)) xs = true).
    { rewrite <- Hall. clear -Hshape1.
      induction xs as [|y xs IH]; [done|]. simpl.
      by rewrite IH, (file_loadable_same_shapes w w1). }
    destruct (IH w1 Hall1) as (Hok & Htr & Hshape).
    split_and!; [exact Hok| |by eapply same_shapes_trans].
    assert (Hsame : xs ≫= (λ y, load_events w1 strict (h y) (g y))
                    = xs ≫= (λ y, load_events w strict (h y) (g y))).
    { apply list_bind_ext; [|done]. intros y. by apply load_events_same_shapes. }
    rewrite Htr, Hsame, Htr1, bind_cons. by rewrite <- app_assoc.
Qed.

(** [load_subnetworks] is the shared loop over the subnetworks whose name
    is wanted, each loaded strictly from its file in the directory [d] that
    the argument or, without one, the configuration gives. *)
Lemma run_load_subnetworks (self : BaseModel) (epoch : pyval) (names : option (list string))
    (resume_dir : option string) (w : world) (nets : list (string * module)) (d : string) :
  subnetworks self = Some nets →
  resume_dir_or self resume_dir = Some d →
  load_subnetworks self epoch names resume_dir w =
    for_each (filter (λ x, x.1 ∈ default (nets.*1) names) nets)
             (λ x, load_one x.2 (os_path_join d (subnet_filename epoch x.1)) true) w.
Proof.
  intros Hnets Hdir. unfold load_subnetworks, get_subnetworks. rewrite Hnets, Hdir.
  rewrite run_bind. change (mret (M := M) nets w) with (Ok nets, w). cbv beta iota.
  change (match names with Some names0 => names0 | None => nets.*1 end)
    with (default (nets.*1) names).
  generalize (default (nets.*1) names). intros wanted. clear Hnets.
  revert w. induction nets as [|[name net] nets IH]; intros w; [done|].
  destruct (decide (name ∈ wanted)) as [Hin|Hout].
  - rewrite filter_cons_True by done. rewrite !run_for_each_cons.
    rewrite bool_decide_true by done. cbn [negb fst snd].
    rewrite run_bind.
    change (join_dir (Some d) (subnet_filename epoch name) w)
      with (Ok (os_path_join d (subnet_filename epoch name)), w).
    cbv beta iota.
    destruct (load_one net _ true w) as [[[]|e] w1]; [apply IH|done].
  - rewrite filter_cons_False by done. rewrite run_for_each_cons.
    rewrite bool_decide_false by done. cbn [negb].
    change (mret (M := M) tt w) with (Ok tt, w). cbv beta iota. apply IH.
Qed.

Lemma load_subnetworks_run (self : BaseModel) (epoch : pyval) (names : option (list string))
    (resume_dir : option string) (w : world) (nets : list (string * module)) (d : string) :
  subnetworks self = Some nets →
  resume_dir_or self resume_dir = Some d →
  let wanted := filter (λ x : string * module, x.1 ∈ default (nets.*1) names) nets in
  let path := λ name, os_path_join d (subnet_filename epoch name) in
  forallb (λ x, file_loadable w true (path x.1) x.2) wanted = true →
  outcome (load_subnetworks self epoch names resume_dir w) = Ok tt ∧
  run_events (load_subnetworks self epoch names resume_dir) w
    = wanted ≫= (λ x, load_events w true (path x.1) x.2).
Proof.
  intros Hnets Hdir wanted path Hall.
  destruct (load_loop snd (λ x, path x.1) true wanted w Hall) as (Hok & Htr & _).
  split.
  - rewrite (run_load_subnetworks self epoch names resume_dir w nets d Hnets Hdir).
    exact Hok.
  - apply run_events_eq.
    rewrite (run_load_subnetworks self epoch names resume_dir w nets d Hnets Hdir).
    exact Htr.
Qed.








Lemma returns_load_state_dict (net : module) (sd : gmap string item) (strict : bool) (w : world) :
  returns (load_state_dict net sd strict w) = loadable w net sd strict.
Proof.
  destruct (run_load_state_dict net sd strict w) as (w' & -> & _).
  unfold returns. simpl. by destruct (loadable w net sd strict).
Qed.

Lemma run_events_emits {A : Type} (P : event → Prop) (m : M A) (w : world) :
  emits P m → Forall P (run_events m w).
Proof.
  intros Hm. destruct (Hm w) as (evs & Htr & Hall).
  by rewrite (run_events_eq m w evs Htr).
Qed.


(** * Further properties *)

(** ** What a run leaves alone *)

Lemma keeps_ret {A B : Type} (proj : world → B) (a : A) : keeps proj (mret a).
Proof. by intros w. Qed.

Lemma keeps_raise {A B : Type} (proj : world → B) (e : exn) : keeps proj (raise (A := A) e).
Proof. by intros w. Qed.

Lemma keeps_lift {A B : Type} (proj : world → B) (r : result A) : keeps proj (lift r).
Proof. by intros w. Qed.

Lemma keeps_get_world {B : Type} (proj : world → B) : keeps proj get_world.
Proof. by intros w. Qed.

Lemma keeps_modify {B : Type} (proj : world → B) (f : world → world) :
  (∀ w, proj (f w) = proj w) → keeps proj (modify f).
Proof. intros Hf w. apply Hf. Qed.

Lemma keeps_emit {B : Type} (proj : world → B) (e : event) :
  (∀ w, proj (add_event e w) = proj w) → keeps proj (emit e).
Proof. intros He. by apply keeps_modify. Qed.

Lemma keeps_bind {A B C : Type} (proj : world → C) (m : M A) (f : A → M B) :
  keeps proj m → (∀ a, keeps proj (f a)) → keeps proj (m ≫= f).
Proof.
  intros Hm Hf w. rewrite run_bind. specialize (Hm w).
  destruct (m w) as [[a|e] w1]; simpl in Hm; [|exact Hm].
  by rewrite Hf.
Qed.

Lemma keeps_for_each {A C : Type} (proj : world → C) (xs : list A) (body : A → M unit) :
  (∀ x, keeps proj (body x)) → keeps proj (for_each xs body).
Proof.
  intros Hbody. induction xs as [|x xs IH]; simpl.
  - apply keeps_ret.
  - apply keeps_bind; [apply Hbody|]. intros _. exact IH.
Qed.

Lemma keeps_try_except {C : Type} (proj : world → C) (body : M unit) (handler : exn → M unit) :
  keeps proj body → (∀ e, keeps proj (handler e)) → keeps proj (try_except body handler).
Proof.
  intros Hbody Hhandler w. unfold try_except. specialize (Hbody w).
  destruct (body w) as [[u|e] w1]; simpl in Hbody; [exact Hbody|].
  by rewrite Hhandler.
Qed.

Create HintDb keeps.

(** Breaks a method into its statements, by the head of the computation. *)
Ltac keeps_step :=
  lazymatch goal with
  | |- ∀ _, _ => intros ?
  | |- keeps _ (mret _) => apply keeps_ret
  | |- keeps _ (raise _) => apply keeps_raise
  | |- keeps _ (lift _) => apply keeps_lift
  | |- keeps _ get_world => apply keeps_get_world
  | |- keeps _ (emit _) => apply keeps_emit; done
  | |- keeps _ (modify _) => apply keeps_modify; done
  | |- keeps _ (mbind _ _) => apply keeps_bind
  | |- keeps _ (for_each _ _) => apply keeps_for_each
  | |- keeps _ (try_except _ _) => apply keeps_try_except
  | |- keeps _ (match ?x with _ => _ end) => destruct x
  | |- keeps _ _ => first [ progress cbv zeta | solve [auto with keeps nocore] ]
  end.

Ltac keeps_auto := repeat keeps_step.

Lemma keeps_save_one {C : Type} (proj : world → C) (net : module) (path : string) :
  (∀ e w, proj (add_event e w) = proj w) →
  (∀ f w, proj (set_files f w) = proj w) →
  keeps proj (save_one net path).
Proof.
  intros Hev Hfiles. unfold save_one, state_dict, torch_save, print. keeps_auto.
Qed.

Lemma keeps_save_subnetworks {C : Type} (proj : world → C) (self : BaseModel) (epoch : pyval) :
  (∀ e w, proj (add_event e w) = proj w) →
  (∀ f w, proj (set_files f w) = proj w) →
  keeps proj (save_subnetworks self epoch).
Proof.
  intros Hev Hfiles. unfold save_subnetworks, get_subnetworks.
  keeps_auto; by apply keeps_save_one.
Qed.

Lemma keeps_save_networks {C : Type} (proj : world → C) (self : BaseModel) (epoch : pyval)
    (other_states : gmap string item) :
  (∀ e w, proj (add_event e w) = proj w) →
  (∀ f w, proj (set_files f w) = proj w) →
  keeps proj (save_networks self epoch other_states).
Proof.
  intros Hev Hfiles. unfold save_networks, torch_save.
  keeps_auto; by apply keeps_save_one.
Qed.

(** X1. Saving reads the networks and never changes them: whether
    [save_networks] and [save_subnetworks] return or raise, every parameter
    (data and gradient flag), every optimizer and every scheduler is as
    before. *)
Theorem save_changes_only_files (self : BaseModel) (epoch : pyval)
    (other_states : gmap string item) (w : world) :
  let after := final (save_networks self epoch other_states w) in
  let after_sub := final (save_subnetworks self epoch w) in
  (params after = params w ∧ optims after = optims w ∧ scheds after = scheds w) ∧
  (params after_sub = params w ∧ optims after_sub = optims w ∧ scheds after_sub = scheds w).
Proof.
  split; split_and!.
  - by apply (keeps_save_networks params).
  - by apply (keeps_save_networks optims).
  - by apply (keeps_save_networks scheds).
  - by apply (keeps_save_subnetworks params).
  - by apply (keeps_save_subnetworks optims).
  - by apply (keeps_save_subnetworks scheds).
Qed.

(** ** What the getters return *)

Lemma get_networks_step (self : BaseModel) (acc acc' : list module) (name : pyval) :
  (assert_ (is_str name) ;;
   net ← getattr self ("net_" +:+ py_str name);
   match net with
   | AModule m => Ok (acc ++ [m])
   | _ => Raise AssertionError
   end) = Ok acc'
  ↔ ∃ net, backed_by self name net ∧ acc' = acc ++ [net].
Proof.
  unfold backed_by, assert_, getattr. split.
  - destruct name as [| |n|s]; simpl; try done.
    destruct (attrs self !! ("net_" +:+ s)) as [[m|t|v]|] eqn:Hattr; simpl; try done.
    intros [= <-]. exists m. split; [|done]. by exists s.
  - intros (net & (s & -> & Hattr) & ->). simpl. by rewrite Hattr.
Qed.

Lemma get_networks_fold (self : BaseModel) (names : list pyval) (acc ret : list module) :
  fold_result (λ ret name,
      assert_ (is_str name) ;;
      net ← getattr self ("net_" +:+ py_str name);
      match net with
      | AModule m => Ok (ret ++ [m])
      | _ => Raise AssertionError
      end) names acc = Ok ret
  ↔ ∃ nets, ret = acc ++ nets ∧ Forall2 (backed_by self) names nets.
Proof.
  revert acc. induction names as [|name names IH]; intros acc; simpl.
  - split.
    + intros [= <-]. exists []. split; [by rewrite app_nil_r|constructor].
    + intros (nets & -> & Hall). apply Forall2_nil_inv_l in Hall as ->.
      by rewrite app_nil_r.
  - split.
    + destruct (assert_ (is_str name) ;; _) as [acc'|e] eqn:Hstep; [|done].
      apply get_networks_step in Hstep as (net & Hnet & ->).
      intros Hrest. apply IH in Hrest as (nets & -> & Hall).
      exists (net :: nets). split; [by rewrite <- app_assoc|by constructor].
    + intros (nets & -> & Hall).
      apply Forall2_cons_inv_l in Hall as (net & nets' & Hnet & Hall & ->).
      assert (Hstep : (assert_ (is_str name) ;;
                       net ← getattr self ("net_" +:+ py_str name);
                       match net with
                       | AModule m => Ok (acc ++ [m])
                       | _ => Raise AssertionError
                       end) = Ok (acc ++ [net])).
      { apply get_networks_step. by exists net. }
      rewrite Hstep. apply IH. exists nets'. split; [by rewrite <- app_assoc|done].
Qed.

Lemma get_networks_backed (self : BaseModel) (nets : list module) :
  get_networks self = Ok nets ↔ Forall2 (backed_by self) (model_names self) nets.
Proof.
  unfold get_networks. rewrite get_networks_fold. split.
  - by intros (nets' & -> & Hall).
  - intros Hall. by exists nets.
Qed.

(** X2. [get_networks] returns exactly when every registered name is a
    string whose attribute [net_<name>] is a network, and then it returns
    those networks, one per name, in the order of [model_names]. *)
Theorem get_networks_resolves (self : BaseModel) (nets : list module) :
  get_networks self = Ok nets ↔ Forall2 (backed_by self) (model_names self) nets.
Proof. apply get_networks_backed. Qed.

Lemma dict_get_set {V : Type} (d : list (string * V)) (k k' : string) (v : V) :
  dict_get (dict_set d k v) k' = if decide (k = k') then Some v else dict_get d k'.
Proof.
  induction d as [|[k0 v0] d IH]; simpl.
  - destruct (String.eqb_spec k k'); by destruct (decide (k = k')).
  - destruct (String.eqb_spec k0 k) as [->|Hne]; simpl.
    + destruct (String.eqb_spec k k'); by destruct (decide (k = k')).
    + destruct (String.eqb_spec k0 k') as [->|Hne'].
      * by destruct (decide (k = k')).
      * exact IH.
Qed.

Lemma dict_set_keys {V : Type} (d : list (string * V)) (k : string) (v : V) :
  (dict_set d k v).*1 = if decide (k ∈ d.*1) then d.*1 else d.*1 ++ [k].
Proof.
  induction d as [|[k0 v0] d IH].
  - cbn. destruct (decide (k ∈ [])) as [Hin|]; [by apply elem_of_nil in Hin|done].
  - cbn [dict_set]. destruct (String.eqb_spec k0 k) as [->|Hne].
    + rewrite !fmap_cons. cbn [fst].
      rewrite decide_True by apply list_elem_of_here. done.
    + rewrite !fmap_cons. cbn [fst]. rewrite IH.
      destruct (decide (k ∈ d.*1)) as [Hin|Hout].
      * rewrite decide_True by (by apply list_elem_of_further). done.
      * rewrite decide_False; [done|].
        intros [->|Hin]%elem_of_cons; done.
Qed.

Lemma dict_set_NoDup {V : Type} (d : list (string * V)) (k : string) (v : V) :
  NoDup d.*1 → NoDup (dict_set d k v).*1.
Proof.
  intros Hd. rewrite dict_set_keys. destruct (decide (k ∈ d.*1)); [done|].
  apply NoDup_app. split_and!; [done| |apply NoDup_singleton].
  intros k' Hin ->%list_elem_of_singleton. done.
Qed.

(** The loop shared by [get_current_losses] and [get_current_visuals], for
    attributes named [prefix ++ name]. *)
Lemma getter_fold (self : BaseModel) (prefix : string) (names : list pyval)
    (acc ret : list (string * attr)) :
  fold_result (λ ret name,
      assert_ (is_str name) ;;
      v ← getattr self (prefix +:+ py_str name);
      Ok (dict_set ret (py_str name) v)) names acc = Ok ret →
  (NoDup acc.*1 → NoDup ret.*1) ∧
  ∀ s, dict_get ret s = if decide (VStr s ∈ names)
                        then attrs self !! (prefix +:+ s)
                        else dict_get acc s.
Proof.
  revert acc. induction names as [|name names IH]; intros acc; simpl.
  - intros [= <-]. split; [done|]. intros s.
    destruct (decide (VStr s ∈ [])) as [Hin|]; [by apply elem_of_nil in Hin|done].
  - unfold assert_ at 1, getattr at 1.
    destruct name as [| |n|s0]; simpl; try done.
    destruct (attrs self !! (prefix +:+ s0)) as [v|] eqn:Hattr; simpl; [|done].
    intros Hrest. apply IH in Hrest as [Hnodup Hget]. split.
    + intros Hacc. by apply Hnodup, dict_set_NoDup.
    + intros s. rewrite Hget, dict_get_set.
      destruct (decide (VStr s ∈ names)) as [Hin|Hout].
      * rewrite decide_True by (by apply list_elem_of_further). done.
      * destruct (decide (s0 = s)) as [->|Hne].
        -- rewrite decide_True by apply list_elem_of_here. done.
        -- rewrite decide_False; [done|].
           intros [[= ->]|Hin]%elem_of_cons; done.
Qed.

(** X3. When [get_current_losses] (or [get_current_visuals]) returns, the
    dictionary it returns has one entry per registered name, repeats of a
    name included once: the value under a name is the attribute
    [loss_<name>] (or [<name>]) of the object, and no other key is there. *)
Theorem getters_return_registered_attributes (self : BaseModel) :
  (∀ ret, get_current_losses self = Ok ret →
     NoDup ret.*1 ∧
     ∀ s, dict_get ret s = if decide (VStr s ∈ loss_names self)
                           then attrs self !! ("loss_" +:+ s) else None) ∧
  (∀ ret, get_current_visuals self = Ok ret →
     NoDup ret.*1 ∧
     ∀ s, dict_get ret s = if decide (VStr s ∈ visual_names self)
                           then attrs self !! s else None).
Proof.
  split; intros ret Hrun.
  - apply (getter_fold self "loss_") in Hrun as [Hnodup Hget].
    split; [apply Hnodup; constructor|exact Hget].
  - apply (getter_fold self "") in Hrun as [Hnodup Hget].
    split; [apply Hnodup; constructor|exact Hget].
Qed.

(** A visual registered twice appears once. *)
Lemma getters_return_witness :
  ∃ ret, get_current_visuals demo_model_visuals = Ok ret ∧
         NoDup ret.*1 ∧
         dict_get ret "net_a" = Some (AModule demo_net_a) ∧
         dict_get ret "net_b" = None.
Proof.
  exists [("net_a", AModule demo_net_a)].
  assert (Hrun : get_current_visuals demo_model_visuals = Ok [("net_a", AModule demo_net_a)])
    by (vm_compute; reflexivity).
  destruct (proj2 (getters_return_registered_attributes demo_model_visuals) _ Hrun)
    as [Hnodup Hget].
  split_and!; [exact Hrun|exact Hnodup| |].
  - rewrite Hget. vm_compute. reflexivity.
  - rewrite Hget. vm_compute. reflexivity.
Defined.

(** ** Gradient flags, once more *)

Lemma param_eta (p : param) : Param (data p) (requires_grad p) = p.
Proof. by destruct p. Qed.

Lemma foldr_set_flag_lookup (flag : bool) (ls : list nat) (ps : nat → param) (l : nat) :
  foldr (set_flag flag) ps ls l
  = if decide (l ∈ ls) then Param (data (ps l)) flag else ps l.
Proof.
  destruct (decide (l ∈ ls)) as [Hin|Hout].
  - rewrite <- (param_eta (foldr _ _ _ _)).
    by rewrite foldr_set_flag_data, foldr_set_flag_in.
  - by apply foldr_set_flag_notin.
Qed.

(** The inner loop of [set_requires_grad]: [param.requires_grad = flag] for
    each parameter of one network. *)
Lemma set_flags_loop (flag : bool) (locs : list nat) (w : world) :
  ∃ ps, for_each locs (λ param, modify (set_params (set_flag flag param))) w
        = (Ok tt, set_params (λ _, ps) w) ∧
        ∀ l, ps l = if decide (l ∈ locs) then Param (data (params w l)) flag
                    else params w l.
Proof.
  revert w. induction locs as [|l0 locs IH]; intros w.
  - exists (params w). split; [by destruct w|]. intros l.
    destruct (decide (l ∈ [])) as [Hin|]; [by apply elem_of_nil in Hin|done].
  - rewrite run_for_each_cons.
    change (modify (set_params (set_flag flag l0)) w)
      with (Ok tt, set_params (set_flag flag l0) w).
    cbv beta iota.
    destruct (IH (set_params (set_flag flag l0) w)) as (ps & Hrun & Hps).
    exists ps. split; [exact Hrun|].
    intros l. rewrite Hps. simpl. rewrite !set_flag_lookup.
    destruct (decide (l ∈ locs)) as [Hin|Hout].
    + rewrite (decide_True (P := l ∈ l0 :: locs)) by (by apply list_elem_of_further).
      by destruct (decide (l0 = l)) as [->|].
    + destruct (decide (l0 = l)) as [->|Hne].
      * by rewrite (decide_True (P := l ∈ l :: locs)) by apply list_elem_of_here.
      * rewrite (decide_False (P := l ∈ l0 :: locs)); [done|].
        intros [->|Hin]%elem_of_cons; done.
Qed.

Lemma parameters_in_cons (net : option module) (nets : list (option module)) :
  parameters_in (net :: nets)
  = match net with Some net => parameters net | None => [] end ++ parameters_in nets.
Proof. reflexivity. Qed.

Lemma set_requires_grad_loop (flag : bool) (nets : list (option module)) (w : world) :
  ∃ ps, for_each nets (λ net,
          match net with
          | Some net =>
              for_each (parameters net) (λ param, modify (set_params (set_flag flag param)))
          | None => mret tt
          end) w
        = (Ok tt, set_params (λ _, ps) w) ∧
        ∀ l, ps l = if decide (l ∈ parameters_in nets) then Param (data (params w l)) flag
                    else params w l.
Proof.
  revert w. induction nets as [|net nets IH]; intros w.
  - exists (params w). split; [by destruct w|]. intros l.
    destruct (decide (l ∈ parameters_in [])) as [Hin|]; [by apply elem_of_nil in Hin|done].
  - rewrite run_for_each_cons.
    assert (Hstep : ∃ ps1,
      match net with
      | Some net =>
          for_each (parameters net) (λ param, modify (set_params (set_flag flag param)))
      | None => mret tt
      end w = (Ok tt, set_params (λ _, ps1) w) ∧
      ∀ l, ps1 l = if decide (l ∈ match net with Some net => parameters net | None => [] end)
                   then Param (data (params w l)) flag else params w l).
    { destruct net as [net|]; [apply set_flags_loop|].
      exists (params w). split; [by destruct w|]. intros l.
      destruct (decide (l ∈ [])) as [Hin|]; [by apply elem_of_nil in Hin|done]. }
    destruct Hstep as (ps1 & -> & Hps1). cbv beta iota.
    destruct (IH (set_params (λ _, ps1) w)) as (ps & Hrun & Hps).
    exists ps. split; [by rewrite Hrun|].
    intros l. rewrite Hps. change (params (set_params (λ _, ps1) w)) with ps1.
    rewrite !Hps1, parameters_in_cons.
    set (own := match net with Some net => parameters net | None => [] end).
    destruct (decide (l ∈ parameters_in nets)) as [H1|H1],
             (decide (l ∈ own)) as [H2|H2],
             (decide (l ∈ own ++ parameters_in nets)) as [H3|H3];
      try done;
      try (exfalso; apply H3, elem_of_app; auto);
      try (apply elem_of_app in H3 as [?|?]; done).
Qed.

Lemma run_set_requires_grad (self : BaseModel) (nets : nets_arg) (flag : bool) (w : world) :
  ∃ ps, set_requires_grad self nets flag w = (Ok tt, set_params (λ _, ps) w) ∧
        ∀ l, ps l = if decide (l ∈ parameters_in (as_list nets))
                    then Param (data (params w l)) flag else params w l.
Proof. apply set_requires_grad_loop. Qed.

(** X4. [set_requires_grad(nets, flag)], given one network or a list,
    always returns; it gives the flag to every parameter of every network
    of the list that is not [None], and leaves the data of every parameter,
    the flag of every other parameter, the files and the output as they
    were. *)
Theorem set_requires_grad_sets_flags
    (self : BaseModel) (nets : nets_arg) (flag : bool) (w : world) :
  let r := set_requires_grad self nets flag w in
  outcome r = Ok tt ∧
  (∀ l, params (final r) l
        = if decide (l ∈ parameters_in (as_list nets))
          then Param (data (params w l)) flag else params w l) ∧
  files (final r) = files w ∧ trace (final r) = trace w.
Proof.
  destruct (run_set_requires_grad self nets flag w) as (ps & -> & Hps).
  simpl. done.
Qed.

Lemma parameters_in_lookups (nets : list (string * module)) (names : list string) :
  parameters_in (dict_get nets <$> names) = parameters_of nets names.
Proof.
  unfold parameters_in, parameters_of.
  induction names as [|name names IH]; [done|].
  rewrite fmap_cons, !bind_cons. by rewrite IH.
Qed.

Lemma run_toggle (self : BaseModel) (flag : bool) (names : list string) (w : world)
    (nets : list (string * module)) :
  subnetworks self = Some nets →
  (if flag then unfreeze_subnetworks self names w else freeze_subnetworks self names w)
  = for_each names (λ name, net ← subscript nets name; requires_grad_ net flag) w.
Proof.
  intros Hnets. destruct flag; unfold unfreeze_subnetworks, freeze_subnetworks;
    rewrite run_bind; unfold get_subnetworks; by rewrite Hnets.
Qed.

Lemma toggle_loop_lookup (nets : list (string * module)) (flag : bool)
    (names : list string) (w : world) :
  Forall (λ name, is_Some (dict_get nets name)) names →
  ∀ l, params (final (for_each names
                        (λ name, net ← subscript nets name; requires_grad_ net flag) w)) l
       = if decide (l ∈ parameters_of nets names)
         then Param (data (params w l)) flag else params w l.
Proof.
  intros Hall l. destruct (toggle_loop nets flag names w Hall) as (_ & Hin & Hout & Hdata).
  destruct (decide (l ∈ parameters_of nets names)) as [Hl|Hl].
  - rewrite <- (param_eta (params _ l)). by rewrite Hdata, Hin.
  - by apply Hout.
Qed.

(** X5. For names that are keys of the subnetwork dictionary,
    [freeze_subnetworks(names)] leaves every parameter exactly as
    [set_requires_grad([nets[name] for name in names], False)] does, and
    [unfreeze_subnetworks(names)] as the same call with [True] does. *)
Theorem freeze_is_set_requires_grad
    (self : BaseModel) (names : list string) (w : world) (nets : list (string * module)) :
  subnetworks self = Some nets →
  Forall (λ name, is_Some (dict_get nets name)) names →
  ∀ l,
    params (final (freeze_subnetworks self names w)) l
    = params (final (set_requires_grad self (NetList (dict_get nets <$> names)) false w)) l ∧
    params (final (unfreeze_subnetworks self names w)) l
    = params (final (set_requires_grad self (NetList (dict_get nets <$> names)) true w)) l.
Proof.
  intros Hnets Hall l.
  pose proof (run_toggle self false names w nets Hnets) as Hf.
  pose proof (run_toggle self true names w nets Hnets) as Ht.
  simpl in Hf, Ht. rewrite Hf, Ht, !toggle_loop_lookup by done.
  destruct (run_set_requires_grad self (NetList (dict_get nets <$> names)) false w)
    as (ps0 & -> & Hps0).
  destruct (run_set_requires_grad self (NetList (dict_get nets <$> names)) true w)
    as (ps1 & -> & Hps1).
  simpl. rewrite Hps0, Hps1. simpl. by rewrite parameters_in_lookups.
Qed.

(** Freezing [a] and [b] through either method. *)
Lemma freeze_is_set_requires_grad_witness :
  params (final (freeze_subnetworks demo_model ["a"; "b"] demo_world)) 1
  = params (final (set_requires_grad demo_model
                     (NetList [Some demo_net_a; Some demo_net_b]) false demo_world)) 1.
Proof.
  refine (proj1 (freeze_is_set_requires_grad demo_model ["a"; "b"] demo_world
                   [("a", demo_net_a); ("b", demo_net_b)] eq_refl _ 1)).
  repeat constructor; eexists; reflexivity.
Defined.

(** ** Names that are no keys *)

Lemma run_for_each_app {A : Type} (xs ys : list A) (body : A → M unit) (w : world) :
  for_each (xs ++ ys) body w =
    match for_each xs body w with
    | (Ok _, w') => for_each ys body w'
    | (Raise e, w') => (Raise e, w')
    end.
Proof.
  revert w. induction xs as [|x xs IH]; intros w; [done|].
  rewrite <- app_comm_cons, !run_for_each_cons.
  destruct (body x w) as [[[]|e] w1]; [apply IH|done].
Qed.

Lemma for_each_ext_in {A : Type} (xs : list A) (body1 body2 : A → M unit) :
  (∀ x, x ∈ xs → body1 x = body2 x) → for_each xs body1 = for_each xs body2.
Proof.
  induction xs as [|x xs IH]; intros Hext; [done|]. simpl.
  rewrite (Hext x) by apply list_elem_of_here.
  rewrite IH; [done|]. intros y Hy. by apply Hext, list_elem_of_further.
Qed.

Lemma for_each_skip {A : Type} (xs : list A) (body : A → M unit) (w : world) :
  (∀ x, x ∈ xs → body x = mret tt) → for_each xs body w = (Ok tt, w).
Proof.
  induction xs as [|x xs IH]; intros Hskip; [done|].
  rewrite run_for_each_cons, (Hskip x) by apply list_elem_of_here.
  change (mret (M := M) tt w) with (Ok tt, w). cbv beta iota.
  apply IH. intros y Hy. by apply Hskip, list_elem_of_further.
Qed.

(** X6. [freeze_subnetworks] and [unfreeze_subnetworks] stop at the first
    name that is no key of the subnetwork dictionary with a [KeyError] for
    that name: the subnetworks named before it have been switched, those
    named after it are not reached. *)
Theorem freeze_stops_at_unknown_name
    (self : BaseModel) (w : world) (nets : list (string * module))
    (before after : list string) (unknown : string) :
  subnetworks self = Some nets →
  Forall (λ name, is_Some (dict_get nets name)) before →
  dict_get nets unknown = None →
  freeze_subnetworks self (before ++ unknown :: after) w
    = (Raise (KeyError unknown), final (freeze_subnetworks self before w)) ∧
  unfreeze_subnetworks self (before ++ unknown :: after) w
    = (Raise (KeyError unknown), final (unfreeze_subnetworks self before w)).
Proof.
  intros Hnets Hall Hunknown.
  assert (Hflag : ∀ flag,
    for_each (before ++ unknown :: after)
             (λ name, net ← subscript nets name; requires_grad_ net flag) w
    = (Raise (KeyError unknown),
       final (for_each before (λ name, net ← subscript nets name; requires_grad_ net flag) w))).
  { intros flag. rewrite run_for_each_app.
    destruct (toggle_loop nets flag before w Hall) as (Hok & _).
    unfold final. destruct (for_each before _ w) as [[[]|e] w1]; [|done].
    cbn [snd]. rewrite run_for_each_cons, run_bind.
    unfold subscript at 1. by rewrite Hunknown. }
  pose proof (run_toggle self false (before ++ unknown :: after) w nets Hnets) as Hf.
  pose proof (run_toggle self true (before ++ unknown :: after) w nets Hnets) as Ht.
  pose proof (run_toggle self false before w nets Hnets) as Hf'.
  pose proof (run_toggle self true before w nets Hnets) as Ht'.
  simpl in Hf, Ht, Hf', Ht'. rewrite Hf, Ht, Hf', Ht'. split; apply Hflag.
Qed.

(** Freezing [a], then a name that is no subnetwork, then [b]. *)
Lemma freeze_stops_witness :
  outcome (freeze_subnetworks demo_model ["a"; "c"; "b"] demo_world) = Raise (KeyError "c") ∧
  requires_grad (params (final (freeze_subnetworks demo_model ["a"; "c"; "b"] demo_world)) 1)
    = true.
Proof.
  pose proof (proj1 (freeze_stops_at_unknown_name demo_model demo_world
                       [("a", demo_net_a); ("b", demo_net_b)] ["a"] ["b"] "c"
                       eq_refl ltac:(repeat constructor; eexists; reflexivity) eq_refl))
    as Hrun.
  cbn [app] in Hrun. rewrite Hrun. split; reflexivity.
Defined.

(** X7. [load_subnetworks] never raises for a name that is no key of the
    subnetwork dictionary: such names are dropped, and a call none of whose
    names is a key does nothing at all, whatever directory is or is not
    configured. *)
Theorem load_subnetworks_ignores_unknown_names
    (self : BaseModel) (epoch : pyval) (names : list string) (resume_dir : option string)
    (w : world) (nets : list (string * module)) :
  subnetworks self = Some nets →
  load_subnetworks self epoch (Some names) resume_dir w
    = load_subnetworks self epoch (Some (filter (λ name, name ∈ nets.*1) names)) resume_dir w ∧
  (Forall (λ name, name ∉ nets.*1) names →
   load_subnetworks self epoch (Some names) resume_dir w = (Ok tt, w)).
Proof.
  intros Hnets. unfold load_subnetworks, get_subnetworks. rewrite Hnets.
  rewrite !run_bind. change (mret (M := M) nets w) with (Ok nets, w). cbv beta iota.
  split.
  - apply (f_equal (λ m : M unit, m w)).
    apply for_each_ext_in. intros [name net] Hin.
    assert (Hkey : name ∈ nets.*1) by (apply list_elem_of_fmap; by exists (name, net)).
    assert (Hsame : bool_decide (name ∈ names)
                    = bool_decide (name ∈ filter (λ name, name ∈ nets.*1) names)).
    { apply bool_decide_ext. rewrite list_elem_of_filter. tauto. }
    by rewrite Hsame.
  - intros Hall. apply for_each_skip. intros [name net] Hin.
    assert (Hkey : name ∈ nets.*1) by (apply list_elem_of_fmap; by exists (name, net)).
    rewrite bool_decide_false; [done|].
    intros Hname. rewrite Forall_forall in Hall. by apply (Hall name).
Qed.

(** A name that is no subnetwork, and no directory to load from. *)
Lemma load_subnetworks_ignores_witness :
  load_subnetworks demo_model_fresh (VInt 3) (Some ["c"]) None demo_world
  = (Ok tt, demo_world).
Proof.
  refine (proj2 (load_subnetworks_ignores_unknown_names demo_model_fresh (VInt 3) ["c"] None
                   demo_world [("a", demo_net_a); ("b", demo_net_b)] eq_refl) _).
  repeat constructor. vm_compute. intros H. inversion H as [|? ? ? H']. inversion H' as [|? ? ? H''].
  inversion H''.
Defined.

(** ** Loading the registered networks *)

Lemma backed_names_are_strings (self : BaseModel) (names : list pyval) (nets : list module) :
  Forall2 (backed_by self) names nets →
  ∀ x, x ∈ zip names nets → is_str x.1 = true.
Proof.
  induction 1 as [|name net names nets (s & -> & _) _ IH]; intros x Hx.
  - by apply elem_of_nil in Hx.
  - simpl in Hx. apply elem_of_cons in Hx as [->|Hx]; [done|by apply IH].
Qed.

(** [load_networks] as the loop it runs once the registry has resolved. *)
Lemma run_load_networks (self : BaseModel) (epoch : pyval) (w : world) (nets : list module) :
  get_networks self = Ok nets →
  load_networks self epoch w =
    for_each (zip (model_names self) nets) (λ x,
      print (MsgLoading x.1) ;;
      load_path ← join_dir (opt_resume_dir (opt self)) (net_filename epoch x.1);
      load_one x.2 load_path false) w.
Proof.
  intros Hnets. unfold load_networks. rewrite Hnets, run_bind.
  change (lift (Ok nets) w) with (Ok nets, w). cbv beta iota.
  apply (f_equal (λ m : M unit, m w)). apply for_each_ext_in. intros [name net] Hin.
  apply get_networks_backed in Hnets.
  pose proof (backed_names_are_strings self _ _ Hnets _ Hin) as Hstr. simpl in Hstr.
  rewrite Hstr. reflexivity.
Qed.

Lemma run_load_networks_no_dir
    (self : BaseModel) (epoch : pyval) (w : world) (nets : list module) :
  get_networks self = Ok nets →
  opt_resume_dir (opt self) = None →
  load_networks self epoch w
  = match model_names self with
    | [] => (Ok tt, w)
    | name :: _ => (Raise TypeError, add_event (Print (MsgLoading name)) w)
    end.
Proof.
  intros Hnets Hdir. rewrite (run_load_networks self epoch w nets Hnets), Hdir.
  pose proof (get_networks_length self nets Hnets) as Hlen.
  destruct (model_names self) as [|name names]; [done|].
  destruct nets as [|net nets]; [done|]. reflexivity.
Qed.

(** X8. With [self.opt.resume_dir] unset, [load_networks] returns without
    doing anything when no network is registered, and otherwise raises a
    [TypeError] from [os.path.join] at the first network, after announcing
    it and before touching any file or parameter. *)
Theorem load_networks_without_resume_dir
    (self : BaseModel) (epoch : pyval) (w : world) (nets : list module) :
  get_networks self = Ok nets →
  opt_resume_dir (opt self) = None →
  load_networks self epoch w
  = match model_names self with
    | [] => (Ok tt, w)
    | name :: _ => (Raise TypeError, add_event (Print (MsgLoading name)) w)
    end.
Proof. apply run_load_networks_no_dir. Qed.

Lemma load_networks_without_resume_dir_witness :
  load_networks demo_model_fresh (VStr "latest") demo_world
  = (Raise TypeError, add_event (Print (MsgLoading (VStr "a"))) demo_world).
Proof.
  refine (load_networks_without_resume_dir demo_model_fresh (VStr "latest") demo_world
            [demo_net_a] _ eq_refl).
  vm_compute. reflexivity.
Defined.

(** The loop of [load_networks] for a directory [d]. *)
Lemma load_networks_loop (d : string) (epoch : pyval) (xs : list (pyval * module)) (w : world) :
  let path := λ name, os_path_join d (net_filename epoch name) in
  forallb (λ x, file_loadable w false (path x.1) x.2) xs = true →
  let r := for_each xs (λ x,
             print (MsgLoading x.1) ;;
             load_path ← join_dir (Some d) (net_filename epoch x.1);
             load_one x.2 load_path false) w in
  outcome r = Ok tt ∧
  trace (final r) = trace w ++ (xs ≫= λ x, load_network_events w (path x.1) x) ∧
  same_shapes w (final r).
Proof.
  intros path. revert w. induction xs as [|x xs IH]; intros w Hall.
  - simpl. split_and!; [done|by rewrite app_nil_r|apply same_shapes_refl].
  - simpl in Hall. apply andb_prop in Hall as [Hx Hall].
    rewrite run_for_each_cons.
    change ((print (MsgLoading x.1) ;;
             load_path ← join_dir (Some d) (net_filename epoch x.1);
             load_one x.2 load_path false) w)
      with (load_one x.2 (path x.1) false (add_event (Print (MsgLoading x.1)) w)).
    set (w0 := add_event (Print (MsgLoading x.1)) w).
    assert (Hw0 : same_shapes w w0) by apply same_shapes_add_event.
    destruct (run_load_one x.2 (path x.1) false w0) as (w1 & Hrun & Htr1 & Hshape1).
    rewrite Hrun, (file_loadable_same_shapes w w0), Hx by done. cbv beta iota.
    assert (Hw1 : same_shapes w w1) by (by eapply same_shapes_trans).
    assert (Hall1 : forallb (λ y, file_loadable w1 false (path y.1) y.2) xs = true).
    { rewrite <- Hall. clear -Hw1.
      induction xs as [|y xs IH]; [done|]. simpl.
      by rewrite IH, (file_loadable_same_shapes w w1). }
    destruct (IH w1 Hall1) as (Hok & Htr & Hshape).
    split_and!; [exact Hok| |by eapply same_shapes_trans].
    assert (Hsame : xs ≫= (λ y, load_network_events w1 (path y.1) y)
                    = xs ≫= (λ y, load_network_events w (path y.1) y)).
    { apply list_bind_ext; [|done]. intros y. unfold load_network_events.
      by rewrite (load_events_same_shapes w w1). }
    rewrite Htr, Hsame, Htr1, bind_cons.
    rewrite (load_events_same_shapes w w0) by done.
    unfold load_network_events at 2. subst w0. simpl. by rewrite <- !app_assoc.
Qed.

(** X9. [load_networks], with [self.opt.resume_dir] set and every registered
    name backed, where every checkpoint file that exists fits the shapes of
    its network, returns; for each registered network, in order, it prints
    the ["loading"] line, then either the ["cannot load"] line when the file
    [{epoch}_net_{name}.pth] of the directory is missing, or calls
    [torch.load] on it and a non-strict [load_state_dict] with its content;
    keys the checkpoint lacks or has in excess do not matter. *)
Theorem load_networks_loads_each_network
    (self : BaseModel) (epoch : pyval) (w : world) (nets : list module) (d : string) :
  get_networks self = Ok nets →
  opt_resume_dir (opt self) = Some d →
  let path := λ name, os_path_join d (py_str epoch +:+ "_net_" +:+ py_str name +:+ ".pth") in
  forallb (λ x : pyval * module,
             match files w !! path x.1 with
             | None => true
             | Some (Pickled sd) => entries_ok w (unwrap x.2) sd
             | Some Corrupt => false
             end) (zip (model_names self) nets) = true →
  outcome (load_networks self epoch w) = Ok tt ∧
  run_events (load_networks self epoch) w
    = zip (model_names self) nets ≫= (λ x, load_network_events w (path x.1) x).
Proof.
  intros Hnets Hdir path Hall.
  assert (Hall' : forallb (λ x : pyval * module, file_loadable w false (path x.1) x.2)
                          (zip (model_names self) nets) = true).
  { rewrite <- Hall. clear. induction (zip (model_names self) nets) as [|x xs IH]; [done|].
    simpl. rewrite IH. f_equal. unfold file_loadable, loadable.
    destruct (files w !! path x.1) as [[sd|]|]; [|done|done].
    simpl. by rewrite andb_true_r. }
  destruct (load_networks_loop d epoch _ w Hall') as (Hok & Htr & _).
  split.
  - rewrite (run_load_networks self epoch w nets Hnets), Hdir. exact Hok.
  - apply run_events_eq.
    rewrite (run_load_networks self epoch w nets Hnets), Hdir. exact Htr.
Qed.

(** The checkpoint of [a] has one key more than [a] has parameters. *)
Lemma load_networks_loads_witness :
  run_events (load_networks demo_model (VStr "latest")) demo_world
  = [Print (MsgLoading (VStr "a"));
     TorchLoad "resume/latest_net_a.pth";
     LoadStateDict demo_net_a demo_checkpoint false].
Proof.
  etrans.
  - refine (proj2 (load_networks_loads_each_network demo_model (VStr "latest") demo_world
                     [demo_net_a] "resume" _ eq_refl _)).
    + vm_compute. reflexivity.
    + vm_compute. reflexivity.
  - vm_compute. reflexivity.
Defined.

(** ** [setup] when not training *)

Lemma setup_schedulers_not_training (get_scheduler : nat → options → result scheduler)
    (self : BaseModel) (o : options) (w : world) :
  is_train self = false → setup_schedulers get_scheduler self o w = (Ok self, w).
Proof. intros Htrain. unfold setup_schedulers. by rewrite Htrain. Qed.

(** X10. A model that is not training, has at least one network registered
    and has no [resume_dir] in [self.opt] cannot be set up: once the
    subnetwork loading of [setup] has returned, [setup] calls
    [load_networks], which raises a [TypeError]; nothing is frozen and no
    network is printed. *)
Theorem setup_not_training_needs_resume_dir
    (get_scheduler : nat → options → result scheduler)
    (self : BaseModel) (o : options) (w : world) (nets : list module) :
  is_train self = false →
  opt_resume_dir (opt self) = None →
  get_networks self = Ok nets →
  model_names self ≠ [] →
  returns (setup_before_load_networks get_scheduler self o w) = true →
  outcome (setup get_scheduler self o w) = Raise TypeError ∧
  ∀ c, c ∈ calls_of (run_events (setup get_scheduler self o) w) →
       is_freeze_subnetworks c = false ∧ c ≠ PrintNetworks (opt_verbose o).
Proof.
  intros Htrain Hdir Hnets Hnames Hreach.
  unfold setup_before_load_networks, returns in Hreach.
  rewrite run_bind, (setup_schedulers_not_training _ _ _ _ Htrain) in Hreach.
  cbv beta iota in Hreach. rewrite run_bind in Hreach.
  destruct (adds_calls_setup_load_subnetworks self o w) as (evs & Htr & Hpre & _).
  destruct (setup_load_subnetworks self o w) as [[[]|e] w2] eqn:Hsub; [|done].
  simpl in Htr. clear Hreach.
  assert (Hrun : setup get_scheduler self o w
                 = (Raise TypeError,
                    add_event (Print (MsgLoading (hd VNone (model_names self))))
                      (add_event (Enter (LoadNetworks (opt_resume_epoch o))) w2))).
  { unfold setup. rewrite run_bind, (setup_schedulers_not_training _ _ _ _ Htrain).
    cbv beta iota. rewrite run_bind, Hsub. cbv beta iota. rewrite run_bind.
    unfold setup_load_networks. rewrite Htrain. cbn [negb orb]. rewrite run_bind.
    change (emit (Enter (LoadNetworks (opt_resume_epoch o))) w2)
      with (Ok tt, add_event (Enter (LoadNetworks (opt_resume_epoch o))) w2).
    cbv beta iota. rewrite (run_load_networks_no_dir self _ _ nets Hnets Hdir).
    destruct (model_names self) as [|name names]; [done|]. reflexivity. }
  split; [by rewrite Hrun|].
  intros c Hc. unfold run_events in Hc. rewrite Hrun in Hc. simpl in Hc.
  rewrite Htr, <- !app_assoc, drop_app_length in Hc.
  rewrite calls_of_app in Hc. apply elem_of_app in Hc as [Hc|Hc].
  - pose proof (elem_of_prefix _ _ _ Hc Hpre) as Hplan.
    unfold plan_load_subnetworks in Hplan.
    destruct (truthy _); [destruct (opt_load_subnetworks o)|];
      first [by apply elem_of_nil in Hplan
            | apply list_elem_of_singleton in Hplan as ->; done].
  - simpl in Hc. apply list_elem_of_singleton in Hc as ->. done.
Qed.

Lemma setup_not_training_witness :
  outcome (setup demo_get_scheduler demo_model_fresh demo_options_fresh demo_world)
  = Raise TypeError.
Proof.
  refine (proj1 (setup_not_training_needs_resume_dir demo_get_scheduler demo_model_fresh
                   demo_options_fresh demo_world [demo_net_a] eq_refl eq_refl _ _ _)).
  - vm_compute. reflexivity.
  - discriminate.
  - vm_compute. reflexivity.
Defined.

(** ** Printing the networks *)

Lemma count_params_same (w w' : world) (net : module) :
  params w' = params w → count_params w' net = count_params w net.
Proof. intros Hparams. unfold count_params. by rewrite Hparams. Qed.

Lemma count_params_sum (w : world) (net : module) :
  count_params w net = sum_list ((λ l, length (data (params w l))) <$> parameters net).
Proof.
  unfold count_params.
  assert (H : ∀ ls n, foldl (λ num_params l, num_params + length (data (params w l))) n ls
                      = n + sum_list ((λ l, length (data (params w l))) <$> ls)).
  { induction ls as [|l ls IH]; intros n; [simpl; lia|].
    rewrite fmap_cons. cbn [foldl]. rewrite IH. simpl. lia. }
  by rewrite H.
Qed.

Lemma print_networks_loop (verbose : bool) (xs : list (pyval * module)) (w : world) :
  let r := for_each xs (λ '(name, net),
             w ← get_world;
             let num_params := count_params w net in
             (if verbose then print (MsgNetwork net) else mret tt) ;;
             print (MsgNumParams (py_str name) num_params)) w in
  outcome r = Ok tt ∧
  trace (final r) = trace w ++ (xs ≫= network_lines w verbose) ∧
  params (final r) = params w.
Proof.
  revert w. induction xs as [|[name net] xs IH]; intros w.
  - simpl. split_and!; [done|by rewrite app_nil_r|done].
  - rewrite run_for_each_cons.
    set (w1 := if verbose
               then add_event (Print (MsgNumParams (py_str name) (count_params w net)))
                      (add_event (Print (MsgNetwork net)) w)
               else add_event (Print (MsgNumParams (py_str name) (count_params w net))) w).
    assert (Hstep : (w ← get_world;
                     let num_params := count_params w net in
                     (if verbose then print (MsgNetwork net) else mret tt) ;;
                     print (MsgNumParams (py_str name) num_params)) w = (Ok tt, w1)).
    { subst w1. by destruct verbose. }
    rewrite Hstep. cbv beta iota.
    assert (Hw1 : params w1 = params w ∧
                  trace w1 = trace w ++ network_lines w verbose (name, net)).
    { subst w1. unfold network_lines. destruct verbose; simpl; [|done].
      by rewrite <- app_assoc. }
    destruct Hw1 as [Hparams1 Htr1].
    destruct (IH w1) as (Hok & Htr & Hparams).
    split_and!; [exact Hok| |by rewrite Hparams].
    assert (Hsame : xs ≫= network_lines w1 verbose = xs ≫= network_lines w verbose).
    { apply list_bind_ext; [|done]. intros [name' net']. unfold network_lines. simpl.
      by rewrite (count_params_same w w1). }
    rewrite Htr, Hsame, Htr1, bind_cons. by rewrite <- app_assoc.
Qed.

Lemma trace_print (msg : message) (w : world) :
  trace (final (print msg w)) = trace w ++ [Print msg].
Proof. reflexivity. Qed.

Lemma keeps_print_networks {C : Type} (proj : world → C) (self : BaseModel) (verbose : bool) :
  (∀ e w, proj (add_event e w) = proj w) →
  keeps proj (print_networks self verbose).
Proof. intros Hev. unfold print_networks, print. keeps_auto. Qed.

(** X11. [print_networks] changes nothing but the output.  When the
    registry resolves it returns, having printed the banner, then for each
    registered network in order the network itself (only when [verbose])
    and its line with the name and the number of entries of its distinct
    parameters, then the footer; when the registry does not resolve it
    raises the getter's exception, having printed the banner only. *)
Theorem print_networks_prints (self : BaseModel) (verbose : bool) (w : world) :
  let r := print_networks self verbose w in
  (params (final r) = params w ∧ files (final r) = files w ∧
   optims (final r) = optims w ∧ scheds (final r) = scheds w) ∧
  (∀ nets, get_networks self = Ok nets →
     outcome r = Ok tt ∧
     run_events (print_networks self verbose) w
       = Print MsgBanner
         :: (zip (model_names self) nets ≫= network_lines w verbose)
         ++ [Print MsgFooter]) ∧
  (∀ e, get_networks self = Raise e →
     r = (Raise e, add_event (Print MsgBanner) w)) ∧
  (∀ net, count_params w net
          = sum_list ((λ l, length (data (params w l))) <$> parameters net)).
Proof.
  intros r. split; [|split; [|split]].
  - split_and!.
    + by apply (keeps_print_networks params).
    + by apply (keeps_print_networks files).
    + by apply (keeps_print_networks optims).
    + by apply (keeps_print_networks scheds).
  - intros nets Hnets.
    destruct (print_networks_loop verbose (zip (model_names self) nets)
                (add_event (Print MsgBanner) w)) as (Hok & Htr & _).
    assert (Hrun : r = print MsgFooter
                         (final (for_each (zip (model_names self) nets) (λ '(name, net),
                            w ← get_world;
                            let num_params := count_params w net in
                            (if verbose then print (MsgNetwork net) else mret tt) ;;
                            print (MsgNumParams (py_str name) num_params))
                          (add_event (Print MsgBanner) w)))).
    { unfold r, print_networks. rewrite run_bind.
      change (print MsgBanner w) with (Ok tt, add_event (Print MsgBanner) w).
      cbv beta iota. rewrite Hnets, run_bind.
      change (lift (Ok nets) (add_event (Print MsgBanner) w))
        with (Ok nets, add_event (Print MsgBanner) w).
      cbv beta iota. rewrite run_bind.
      unfold outcome, final in *.
      destruct (for_each _ _ (add_event (Print MsgBanner) w)) as [[[]|e] w1];
        simpl in *; [reflexivity|done]. }
    split; [by rewrite Hrun|].
    apply run_events_eq. fold r. rewrite Hrun, trace_print, Htr.
    change (trace (add_event (Print MsgBanner) w)) with (trace w ++ [Print MsgBanner]).
    assert (Hsame : zip (model_names self) nets
                      ≫= network_lines (add_event (Print MsgBanner) w) verbose
                    = zip (model_names self) nets ≫= network_lines w verbose).
    { apply list_bind_ext; [|done]. by intros [name net]. }
    rewrite Hsame. by rewrite <- !app_assoc.
  - intros e Hnets. unfold r, print_networks. rewrite run_bind.
    change (print MsgBanner w) with (Ok tt, add_event (Print MsgBanner) w).
    cbv beta iota. by rewrite Hnets.
  - intros net. apply count_params_sum.
Qed.

Lemma print_networks_witness :
  run_events (print_networks demo_model true) demo_world
  = [Print MsgBanner; Print (MsgNetwork demo_net_a); Print (MsgNumParams "a" 3);
     Print MsgFooter].
Proof.
  etrans.
  - refine (proj2 (proj1 (proj2 (print_networks_prints demo_model true demo_world))
                     [demo_net_a] _)).
    vm_compute. reflexivity.
  - reflexivity.
Defined.

(** ** What loading leaves alone *)

Lemma final_load_state_dict (net : module) (sd : gmap string item) (strict : bool) (w : world) :
  final (load_state_dict net sd strict w)
  = set_params
      (λ _, (foldl (λ acc kp, load_param sd kp acc) (params w, false)
                   (named_parameters net)).1)
      (add_event (LoadStateDict net sd strict) w).
Proof.
  unfold load_state_dict. rewrite run_bind.
  change (emit (LoadStateDict net sd strict) w)
    with (Ok tt, add_event (LoadStateDict net sd strict) w).
  cbv beta iota. rewrite run_bind.
  change (get_world (add_event (LoadStateDict net sd strict) w))
    with (Ok (add_event (LoadStateDict net sd strict) w),
          add_event (LoadStateDict net sd strict) w).
  cbv beta iota zeta. rewrite run_bind.
  change (params (add_event (LoadStateDict net sd strict) w)) with (params w).
  match goal with |- context [if ?b then raise _ else mret _] => destruct b end;
    reflexivity.
Qed.

Lemma load_params_fold_flags (sd : gmap string item) (nps : list (string * nat))
    (acc : (nat → param) * bool) (l : nat) :
  requires_grad ((foldl (λ acc kp, load_param sd kp acc) acc nps).1 l)
  = requires_grad (acc.1 l).
Proof.
  revert acc. induction nps as [|[k l0] nps IH]; intros [store flag]; [done|].
  simpl. rewrite IH. unfold load_param. simpl.
  destruct (sd !! k) as [[t|v]|]; simpl; try done.
  case_bool_decide; simpl; [|done].
  destruct (decide (l0 = l)) as [->|Hne].
  - by rewrite fn_lookup_insert.
  - by rewrite fn_lookup_insert_ne.
Qed.

(** The gradient flag and the shape of the parameter at [l]. *)
Lemma keeps_load_state_dict_flags (l : nat) (net : module) (sd : gmap string item)
    (strict : bool) :
  keeps (λ w, (requires_grad (params w l), length (data (params w l))))
        (load_state_dict net sd strict).
Proof.
  intros w. rewrite final_load_state_dict. simpl.
  rewrite load_params_fold_flags. simpl. f_equal.
  by destruct (load_params_fold sd (params w) (named_parameters net) (params w, false))
    as [-> _].
Qed.

Lemma keeps_load_state_dict_other {C : Type} (proj : world → C) (net : module)
    (sd : gmap string item) (strict : bool) :
  (∀ e w, proj (add_event e w) = proj w) →
  (∀ f w, proj (set_params f w) = proj w) →
  keeps proj (load_state_dict net sd strict).
Proof. intros Hev Hparams w. by rewrite final_load_state_dict, Hparams, Hev. Qed.

Lemma keeps_load_one {C : Type} (proj : world → C) (net : module) (path : string)
    (strict : bool) :
  (∀ e w, proj (add_event e w) = proj w) →
  (∀ net sd strict, keeps proj (load_state_dict net sd strict)) →
  keeps proj (load_one net path strict).
Proof.
  intros Hev Hload. unfold load_one, os_path_isfile, torch_load, print.
  keeps_auto; apply Hload.
Qed.

Lemma keeps_load_subnetworks {C : Type} (proj : world → C) (self : BaseModel) (epoch : pyval)
    (names : option (list string)) (resume_dir : option string) :
  (∀ e w, proj (add_event e w) = proj w) →
  (∀ net sd strict, keeps proj (load_state_dict net sd strict)) →
  keeps proj (load_subnetworks self epoch names resume_dir).
Proof.
  intros Hev Hload. unfold load_subnetworks, get_subnetworks, join_dir.
  keeps_auto; by apply keeps_load_one.
Qed.

Lemma keeps_load_networks {C : Type} (proj : world → C) (self : BaseModel) (epoch : pyval) :
  (∀ e w, proj (add_event e w) = proj w) →
  (∀ net sd strict, keeps proj (load_state_dict net sd strict)) →
  keeps proj (load_networks self epoch).
Proof.
  intros Hev Hload. unfold load_networks, join_dir, print.
  keeps_auto; by apply keeps_load_one.
Qed.

(** X12. Loading changes nothing but the data of parameters: whether
    [load_networks] and [load_subnetworks] return or raise, no file is
    written or removed, every optimizer and scheduler is as before, and
    every parameter keeps its gradient flag and its shape. *)
Theorem load_changes_only_parameter_data
    (self : BaseModel) (epoch : pyval) (names : option (list string))
    (resume_dir : option string) (w : world) :
  let after := final (load_networks self epoch w) in
  let after_sub := final (load_subnetworks self epoch names resume_dir w) in
  (files after = files w ∧ optims after = optims w ∧ scheds after = scheds w ∧
   ∀ l, requires_grad (params after l) = requires_grad (params w l) ∧
        length (data (params after l)) = length (data (params w l))) ∧
  (files after_sub = files w ∧ optims after_sub = optims w ∧ scheds after_sub = scheds w ∧
   ∀ l, requires_grad (params after_sub l) = requires_grad (params w l) ∧
        length (data (params after_sub l)) = length (data (params w l))).
Proof.
  split; split_and!.
  - apply (keeps_load_networks files); [done|].
    intros; by apply keeps_load_state_dict_other.
  - apply (keeps_load_networks optims); [done|].
    intros; by apply keeps_load_state_dict_other.
  - apply (keeps_load_networks scheds); [done|].
    intros; by apply keeps_load_state_dict_other.
  - intros l.
    pose proof (keeps_load_networks
                  (λ w, (requires_grad (params w l), length (data (params w l))))
                  self epoch (λ _ _, eq_refl) (keeps_load_state_dict_flags l) w) as H.
    simpl in H. by injection H.
  - apply (keeps_load_subnetworks files); [done|].
    intros; by apply keeps_load_state_dict_other.
  - apply (keeps_load_subnetworks optims); [done|].
    intros; by apply keeps_load_state_dict_other.
  - apply (keeps_load_subnetworks scheds); [done|].
    intros; by apply keeps_load_state_dict_other.
  - intros l.
    pose proof (keeps_load_subnetworks
                  (λ w, (requires_grad (params w l), length (data (params w l))))
                  self epoch names resume_dir (λ _ _, eq_refl)
                  (keeps_load_state_dict_flags l) w) as H.
    simpl in H. by injection H.
Qed.

(** ** The schedulers [setup] makes *)

Lemma bind_outcome_inv {A B : Type} (m : M A) (k : A → M B) (w : world) (b : B) :
  outcome ((m ≫= k) w) = Ok b →
  ∃ a w', m w = (Ok a, w') ∧ outcome (k a w') = Ok b.
Proof.
  rewrite run_bind. destruct (m w) as [[a|e] w'] eqn:Hm; [|done].
  intros Hk. by exists a, w'.
Qed.

Lemma run_new_scheduler (gs : nat → options → result scheduler) (optim : nat) (o : options)
    (sch : scheduler) (w : world) :
  gs optim o = Ok sch →
  new_scheduler gs optim o w
  = (Ok (next_sched w),
     set_next_sched (S (next_sched w)) (set_scheds (<[next_sched w := sch]>) w)).
Proof. intros Hsch. unfold new_scheduler. rewrite run_bind, Hsch. reflexivity. Qed.

(** The comprehension over the optimizers: the schedulers take the next
    free locations, in the order of the optimizers. *)
Lemma run_new_schedulers (gs : nat → options → result scheduler) (o : options)
    (built : nat → scheduler) (os : list nat) (w : world) :
  Forall (λ optim, gs optim o = Ok (built optim)) os →
  let r := new_schedulers gs os o w in
  outcome r = Ok (seq (next_sched w) (length os)) ∧
  next_sched (final r) = next_sched w + length os ∧
  (∀ i optim, os !! i = Some optim → scheds (final r) (next_sched w + i) = built optim) ∧
  (∀ s, s < next_sched w → scheds (final r) s = scheds w s) ∧
  files (final r) = files w ∧ params (final r) = params w ∧
  optims (final r) = optims w ∧ trace (final r) = trace w.
Proof.
  revert w. induction os as [|optim os IH]; intros w Hall.
  - simpl. split_and!; try done; lia.
  - apply Forall_cons in Hall as [Hsch Hall].
    cbn [new_schedulers]. rewrite run_bind, (run_new_scheduler _ _ _ _ _ Hsch).
    cbv beta iota. rewrite run_bind.
    set (w1 := set_next_sched _ _).
    destruct (IH w1 Hall) as (Hok & Hnext & Hnew & Hold & Hf & Hp & Ho & Ht).
    destruct (new_schedulers gs os o w1) as [[ss|e] w2]; simpl in Hok; [|done].
    injection Hok as ->. simpl in Hnext, Hnew, Hold, Hf, Hp, Ho, Ht.
    change (next_sched w1) with (S (next_sched w)) in *.
    simpl. split_and!; try done.
    + lia.
    + intros [|i] optim' Hi; simpl in Hi.
      * injection Hi as <-. rewrite Nat.add_0_r, Hold by lia.
        subst w1. simpl. by rewrite fn_lookup_insert.
      * replace (next_sched w + S i) with (S (next_sched w) + i) by lia.
        by apply Hnew.
    + intros s Hs. rewrite Hold by lia. subst w1. simpl.
      rewrite fn_lookup_insert_ne; [done|lia].
Qed.

(** The comprehension stops at the first optimizer [get_scheduler] refuses. *)
Lemma run_new_schedulers_fail (gs : nat → options → result scheduler) (o : options)
    (os1 os2 : list nat) (optim : nat) (e : exn) (w : world) :
  Forall (λ x, ∃ sch, gs x o = Ok sch) os1 →
  gs optim o = Raise e →
  let r := new_schedulers gs (os1 ++ optim :: os2) o w in
  outcome r = Raise e ∧
  files (final r) = files w ∧ params (final r) = params w ∧
  optims (final r) = optims w ∧ trace (final r) = trace w.
Proof.
  intros Hall Hfail. revert w. induction os1 as [|x os1 IH]; intros w.
  - simpl. rewrite run_bind. unfold new_scheduler. rewrite run_bind, Hfail. done.
  - apply Forall_cons in Hall as [[sch Hsch] Hall].
    rewrite <- app_comm_cons. cbn [new_schedulers].
    rewrite run_bind, (run_new_scheduler _ _ _ _ _ Hsch). cbv beta iota.
    rewrite run_bind. set (w1 := set_next_sched _ _).
    destruct (IH Hall w1) as (Hout & Hf & Hp & Ho & Ht).
    destruct (new_schedulers gs (os1 ++ optim :: os2) o w1) as [[ss|e'] w2];
      simpl in Hout; [done|].
    injection Hout as ->. done.
Qed.

Lemma keeps_freeze_subnetworks {C : Type} (proj : world → C) (self : BaseModel)
    (network_names : list string) :
  (∀ f w, proj (set_params f w) = proj w) →
  keeps proj (freeze_subnetworks self network_names).
Proof.
  intros Hparams. unfold freeze_subnetworks, get_subnetworks, subscript, requires_grad_.
  keeps_auto.
Qed.

(** What [setup] does after its first statement leaves alone all but the
    parameters and the output. *)
Lemma keeps_setup_rest {C : Type} (proj : world → C) (self : BaseModel) (o : options) :
  (∀ e w, proj (add_event e w) = proj w) →
  (∀ f w, proj (set_params f w) = proj w) →
  keeps proj (setup_load_subnetworks self o ;;
              setup_load_networks self o ;;
              setup_freeze_subnetworks self o ;;
              emit (Enter (PrintNetworks (opt_verbose o))) ;;
              print_networks self (opt_verbose o) ;;
              mret self).
Proof.
  intros Hev Hparams.
  assert (Hload : ∀ net sd strict, keeps proj (load_state_dict net sd strict))
    by (intros; by apply keeps_load_state_dict_other).
  unfold setup_load_subnetworks, setup_load_networks, setup_freeze_subnetworks,
    split_option, print.
  keeps_auto;
    first [ by apply keeps_load_subnetworks
          | by apply keeps_load_networks
          | by apply keeps_freeze_subnetworks
          | by apply keeps_print_networks ].
Qed.

(** When [setup] returns, the object it leaves is the one its first
    statement made. *)
Lemma setup_after_schedulers {C : Type} (proj : world → C)
    (gs : nat → options → result scheduler) (self self' : BaseModel) (o : options)
    (w : world) :
  (∀ e w, proj (add_event e w) = proj w) →
  (∀ f w, proj (set_params f w) = proj w) →
  outcome (setup gs self o w) = Ok self' →
  outcome (setup_schedulers gs self o w) = Ok self' ∧
  proj (final (setup gs self o w)) = proj (final (setup_schedulers gs self o w)).
Proof.
  intros Hev Hparams Hout. unfold setup in *. rewrite run_bind in *.
  destruct (setup_schedulers gs self o w) as [[self1|e] w1]; [|done].
  cbv beta iota in *. split.
  - apply bind_outcome_inv in Hout as (? & ? & _ & Hout).
    apply bind_outcome_inv in Hout as (? & ? & _ & Hout).
    apply bind_outcome_inv in Hout as (? & ? & _ & Hout).
    apply bind_outcome_inv in Hout as (? & ? & _ & Hout).
    apply bind_outcome_inv in Hout as (? & ? & _ & Hout).
    simpl in Hout. simpl. congruence.
  - apply (keeps_setup_rest proj self1 o Hev Hparams w1).
Qed.

Lemma run_setup_schedulers_training (gs : nat → options → result scheduler)
    (self : BaseModel) (o : options) (built : nat → scheduler) (os : list nat) (w : world) :
  is_train self = true →
  optimizers self = Some os →
  Forall (λ optim, gs optim o = Ok (built optim)) os →
  let r := setup_schedulers gs self o w in
  outcome r = Ok (set_schedulers (seq (next_sched w) (length os)) self) ∧
  final r = final (new_schedulers gs os o w).
Proof.
  intros Htrain Hos Hall. unfold setup_schedulers. rewrite Htrain, Hos.
  rewrite run_bind. change (read_attr "optimizers" (Some os) w) with (Ok os, w).
  cbv beta iota. rewrite run_bind.
  destruct (run_new_schedulers gs o built os w Hall) as (Hok & _).
  destruct (new_schedulers gs os o w) as [[ss|e] w1]; simpl in Hok; [|done].
  injection Hok as ->. done.
Qed.

(** All that a training [setup] that returns does to the schedulers. *)
Lemma setup_training_schedulers (gs : nat → options → result scheduler)
    (self self' : BaseModel) (o : options) (built : nat → scheduler) (os : list nat)
    (w : world) :
  is_train self = true →
  optimizers self = Some os →
  Forall (λ optim, gs optim o = Ok (built optim)) os →
  outcome (setup gs self o w) = Ok self' →
  self' = set_schedulers (seq (next_sched w) (length os)) self ∧
  (∀ i optim, os !! i = Some optim →
     scheds (final (setup gs self o w)) (next_sched w + i) = built optim) ∧
  (∀ s, s < next_sched w → scheds (final (setup gs self o w)) s = scheds w s).
Proof.
  intros Htrain Hos Hall Hout.
  destruct (setup_after_schedulers scheds gs self self' o w) as [Hself Hscheds];
    [done..|].
  destruct (run_setup_schedulers_training gs self o built os w Htrain Hos Hall)
    as [Hok Hfinal].
  rewrite Hok in Hself. injection Hself as <-.
  rewrite Hscheds, Hfinal.
  destruct (run_new_schedulers gs o built os w Hall) as (_ & _ & Hnew & Hold & _).
  done.
Qed.

(** X13. A [setup] in training mode that returns has made one scheduler per
    optimizer: [self.schedulers] lists new schedulers, as many as there are
    optimizers and all distinct; the [i]-th is the one [get_scheduler]
    built for the [i]-th optimizer, as [setup] leaves the world; and the
    schedulers that existed before are as they were. *)
Theorem setup_creates_schedulers (gs : nat → options → result scheduler)
    (self self' : BaseModel) (o : options) (built : nat → scheduler) (os : list nat)
    (w : world) :
  is_train self = true →
  optimizers self = Some os →
  Forall (λ optim, gs optim o = Ok (built optim)) os →
  outcome (setup gs self o w) = Ok self' →
  let after := final (setup gs self o w) in
  ∃ ss, schedulers self' = Some ss ∧ length ss = length os ∧ NoDup ss ∧
        (∀ i s optim, ss !! i = Some s → os !! i = Some optim →
           next_sched w ≤ s ∧ scheds after s = built optim) ∧
        (∀ s, s < next_sched w → scheds after s = scheds w s) ∧
        optimizers self' = optimizers self ∧ model_names self' = model_names self.
Proof.
  intros Htrain Hos Hall Hout after.
  destruct (setup_training_schedulers gs self self' o built os w Htrain Hos Hall Hout)
    as (-> & Hnew & Hold).
  exists (seq (next_sched w) (length os)).
  split_and!; try done.
  - by rewrite length_seq.
  - apply NoDup_seq.
  - intros i s optim Hs Hi. apply lookup_seq in Hs as [-> _].
    split; [lia|]. by apply Hnew.
Qed.

Lemma setup_creates_schedulers_witness :
  ∃ ss, schedulers (set_schedulers [2; 3] demo_model_training) = Some ss ∧
        length ss = 2 ∧ NoDup ss.
Proof.
  destruct (setup_creates_schedulers demo_get_scheduler demo_model_training
              (set_schedulers [2; 3] demo_model_training) demo_options_training
              demo_scheduler [0; 1] demo_world eq_refl eq_refl)
    as (ss & Hss & Hlen & Hnodup & _).
  - repeat constructor.
  - vm_compute. reflexivity.
  - exists ss. split_and!; assumption.
Defined.


(** The first loop of [update_learning_rate] on the schedulers themselves:
    a scheduler that is not listed is left alone, one listed once has made
    one step. *)
Lemma step_loop_scheds (ss : list nat) (w : world) :
  let r := for_each ss scheduler_step w in
  (∀ s, s ∉ ss → scheds (final r) s = scheds w s) ∧
  (NoDup ss → ∀ s, s ∈ ss → scheds (final r) s = stepped_scheduler (scheds w s)).
Proof.
  revert w. induction ss as [|s0 ss IH]; intros w.
  - simpl. split; [done|]. intros _ s Hs. by apply elem_of_nil in Hs.
  - rewrite run_for_each_cons, run_scheduler_step. cbv beta iota.
    set (w1 := set_optims _ _).
    assert (Hw1 : scheds w1 = <[s0 := stepped_scheduler (scheds w s0)]> (scheds w))
      by reflexivity.
    destruct (IH w1) as [Hout Hin]. split.
    + intros s Hs. apply not_elem_of_cons in Hs as [Hne Hs].
      rewrite Hout, Hw1 by done. by rewrite fn_lookup_insert_ne.
    + intros Hnodup s Hs. apply NoDup_cons in Hnodup as [Hs0 Hnodup].
      apply elem_of_cons in Hs as [->|Hs].
      * rewrite Hout, Hw1 by done. by rewrite fn_lookup_insert.
      * rewrite (Hin Hnodup s Hs), Hw1.
        rewrite fn_lookup_insert_ne; [done|]. intros ->. done.
Qed.

(** The second loop of [update_learning_rate] never touches a scheduler. *)
Lemma update_learning_rate_scheds (self : BaseModel) (verbose : bool) (ss : list nat)
    (w : world) :
  schedulers self = Some ss →
  scheds (final (update_learning_rate self verbose w))
  = scheds (final (for_each ss scheduler_step w)).
Proof.
  intros Hss. unfold update_learning_rate. rewrite Hss.
  rewrite run_bind. change (read_attr "schedulers" (Some ss) w) with (Ok ss, w).
  cbv beta iota. rewrite run_bind.
  destruct (for_each ss scheduler_step w) as [[[]|e] w1]; [|done].
  cbv beta iota.
  assert (Hkeeps : keeps scheds
            (os ← read_attr "optimizers" (optimizers self);
             for_each (enumerate os) (λ '(i, optim),
               w ← get_world;
               match param_groups (optims w optim) with
               | [] => raise IndexError
               | lr :: _ => if verbose then print (MsgLearningRate (i + 1) lr) else mret tt
               end))).
  { unfold read_attr, print. keeps_auto. }
  apply Hkeeps.
Qed.

(** X14. A training [setup] followed by [update_learning_rate]: every
    scheduler [setup] made has then made exactly one step from the state
    [get_scheduler] built it in, and no scheduler that existed before
    [setup] has been stepped; this holds whether or not the report of the
    learning rates that follows the steps succeeds. *)
Theorem setup_then_update_learning_rate (gs : nat → options → result scheduler)
    (self self' : BaseModel) (o : options) (built : nat → scheduler) (os : list nat)
    (verbose : bool) (w : world) :
  is_train self = true →
  optimizers self = Some os →
  Forall (λ optim, gs optim o = Ok (built optim)) os →
  outcome (setup gs self o w) = Ok self' →
  let updated := final (update_learning_rate self' verbose (final (setup gs self o w))) in
  (∀ i optim, os !! i = Some optim →
     scheds updated (next_sched w + i) = stepped_scheduler (built optim)) ∧
  (∀ s, s < next_sched w → scheds updated s = scheds w s).
Proof.
  intros Htrain Hos Hall Hout updated.
  destruct (setup_training_schedulers gs self self' o built os w Htrain Hos Hall Hout)
    as (-> & Hnew & Hold).
  unfold updated.
  rewrite (update_learning_rate_scheds _ _ (seq (next_sched w) (length os))) by done.
  destruct (step_loop_scheds (seq (next_sched w) (length os)) (final (setup gs self o w)))
    as [Hnot Hin].
  split.
  - intros i optim Hi. rewrite Hin.
    + by rewrite (Hnew i optim Hi).
    + apply NoDup_seq.
    + apply elem_of_seq. apply lookup_lt_Some in Hi. lia.
  - intros s Hs. rewrite Hnot; [by apply Hold|].
    rewrite elem_of_seq. lia.
Qed.

Lemma setup_then_update_learning_rate_witness :
  scheds (final (update_learning_rate (set_schedulers [2; 3] demo_model_training) true
                   (final (setup demo_get_scheduler demo_model_training
                                 demo_options_training demo_world)))) (2 + 1)
  = stepped_scheduler (demo_scheduler 1).
Proof.
  refine (proj1 (setup_then_update_learning_rate demo_get_scheduler demo_model_training
                   (set_schedulers [2; 3] demo_model_training) demo_options_training
                   demo_scheduler [0; 1] true demo_world eq_refl eq_refl _ _) 1 1 eq_refl).
  - repeat constructor.
  - vm_compute. reflexivity.
Defined.

(** X15. When [get_scheduler] raises for one of the optimizers, having
    built the schedulers of those before it, a training [setup] raises the
    same exception at once: it loads nothing, freezes nothing and prints
    nothing. *)
Theorem setup_stops_when_get_scheduler_raises (gs : nat → options → result scheduler)
    (self : BaseModel) (o : options) (os1 os2 : list nat) (optim : nat) (e : exn)
    (w : world) :
  is_train self = true →
  optimizers self = Some (os1 ++ optim :: os2) →
  Forall (λ x, ∃ sch, gs x o = Ok sch) os1 →
  gs optim o = Raise e →
  let r := setup gs self o w in
  outcome r = Raise e ∧ run_events (setup gs self o) w = [] ∧
  files (final r) = files w ∧ params (final r) = params w.
Proof.
  intros Htrain Hos Hall Hfail r.
  destruct (run_new_schedulers_fail gs o os1 os2 optim e w Hall Hfail)
    as (Hout & Hf & Hp & _ & Ht).
  assert (Hr : r = (Raise e, final (new_schedulers gs (os1 ++ optim :: os2) o w))).
  { unfold r, setup. rewrite run_bind. unfold setup_schedulers. rewrite Htrain, Hos.
    rewrite run_bind.
    change (read_attr "optimizers" (Some (os1 ++ optim :: os2)) w)
      with (Ok (os1 ++ optim :: os2), w).
    cbv beta iota. rewrite run_bind.
    destruct (new_schedulers gs (os1 ++ optim :: os2) o w) as [[ss|e'] w1];
      simpl in Hout; [done|].
    by injection Hout as ->. }
  rewrite Hr. simpl. split_and!; try done.
  apply run_events_eq. fold r. rewrite Hr. simpl. by rewrite Ht, app_nil_r.
Qed.

Lemma setup_stops_when_get_scheduler_raises_witness :
  outcome (setup demo_get_scheduler_failing demo_model_training demo_options_training
                 demo_world) = Raise NotImplementedError.
Proof.
  refine (proj1 (setup_stops_when_get_scheduler_raises demo_get_scheduler_failing
                   demo_model_training demo_options_training [0] [] 1
                   NotImplementedError demo_world eq_refl eq_refl _ eq_refl)).
  repeat constructor. by exists (demo_scheduler 0).
Defined.

(** X16. A [setup] outside training makes no scheduler: when it returns,
    the object is the one it was given and the schedulers of the world are
    as before.  So on a model that never had [self.schedulers] set,
    [update_learning_rate] after such a [setup] raises an [AttributeError]
    and does nothing. *)
Theorem setup_not_training_makes_no_scheduler (gs : nat → options → result scheduler)
    (self self' : BaseModel) (o : options) (verbose : bool) (w : world) :
  is_train self = false →
  schedulers self = None →
  outcome (setup gs self o w) = Ok self' →
  let after := final (setup gs self o w) in
  self' = self ∧ scheds after = scheds w ∧ next_sched after = next_sched w ∧
  update_learning_rate self' verbose after = (Raise (AttributeError "schedulers"), after).
Proof.
  intros Htrain Hnone Hout after.
  destruct (setup_after_schedulers scheds gs self self' o w) as [Hself Hscheds];
    [done..|].
  destruct (setup_after_schedulers next_sched gs self self' o w) as [_ Hnext];
    [done..|].
  rewrite (setup_schedulers_not_training gs self o w Htrain) in Hself, Hscheds, Hnext.
  simpl in Hself, Hscheds, Hnext. injection Hself as <-.
  split_and!; try done.
  unfold update_learning_rate. rewrite Hnone. reflexivity.
Qed.

Lemma setup_not_training_makes_no_scheduler_witness :
  outcome (update_learning_rate demo_model_test true
             (final (setup demo_get_scheduler demo_model_test demo_options demo_world)))
  = Raise (AttributeError "schedulers").
Proof.
  destruct (setup_not_training_makes_no_scheduler demo_get_scheduler demo_model_test
              demo_model_test demo_options true demo_world eq_refl eq_refl)
    as (_ & _ & _ & Hrun).
  - vm_compute. reflexivity.
  - by rewrite Hrun.
Defined.


Lemma enumerate_app {A : Type} (xs ys : list A) :
  enumerate (xs ++ ys) = enumerate xs ++ zip (seq (length xs) (length ys)) ys.
Proof.
  unfold enumerate. rewrite length_app, seq_app.
  apply zip_with_app. by rewrite length_seq.
Qed.

(** X17. When an optimizer has no parameter group once the schedulers have
    been stepped, [update_learning_rate] raises an [IndexError] at that
    optimizer: by then every scheduler has made its steps, which stay
    made, and the rates of the optimizers before it have been printed
    (when [verbose]); nothing is printed for it or for those after it. *)
Theorem update_learning_rate_stops_at_empty_optimizer
    (self : BaseModel) (verbose : bool) (w : world) (ss os1 os2 : list nat) (optim : nat) :
  schedulers self = Some ss →
  optimizers self = Some (os1 ++ optim :: os2) →
  let stepped := final (for_each ss scheduler_step w) in
  Forall (λ o, param_groups (optims stepped o) ≠ []) os1 →
  param_groups (optims stepped optim) = [] →
  let r := update_learning_rate self verbose w in
  outcome r = Raise IndexError ∧
  run_events (update_learning_rate self verbose) w
    = (SchedulerStep <$> ss) ++ (if verbose then report stepped <$> enumerate os1 else []) ∧
  scheds (final r) = scheds stepped ∧ optims (final r) = optims stepped.
Proof.
  intros Hss Hos stepped Hgroups Hempty r.
  destruct (step_loop ss w) as (Hok1 & Htr1 & _). fold stepped in Htr1.
  assert (Hios : Forall (λ io : nat * nat, param_groups (optims stepped io.2) ≠ [])
                        (enumerate os1)).
  { unfold enumerate. apply Forall_forall. intros [i o] Hio.
    apply elem_of_zip_r in Hio. rewrite Forall_forall in Hgroups. by apply Hgroups. }
  destruct (report_loop verbose (enumerate os1) stepped Hios) as (Hok2 & Htr2 & Hopt & Hsch).
  set (body := λ '(i, optim),
         w ← get_world;
         match param_groups (optims w optim) with
         | [] => raise IndexError
         | lr :: _ => if verbose then print (MsgLearningRate (i + 1) lr) else mret tt
         end) in *.
  assert (Hr : r = (Raise IndexError, final (for_each (enumerate os1) body stepped))).
  { unfold r, update_learning_rate. rewrite Hss, Hos.
    rewrite run_bind. change (read_attr "schedulers" (Some ss) w) with (Ok ss, w).
    cbv beta iota. rewrite run_bind.
    unfold stepped, outcome, final in *.
    destruct (for_each ss scheduler_step w) as [[[]|e] w1]; cbn [fst snd] in *; [|done].
    rewrite run_bind.
    change (read_attr "optimizers" (Some (os1 ++ optim :: os2)) w1)
      with (Ok (os1 ++ optim :: os2), w1).
    cbv beta iota. fold body. rewrite enumerate_app, run_for_each_app.
    destruct (for_each (enumerate os1) body w1) as [[[]|e] w2]; cbn [fst snd] in *;
      [|done].
    change (zip (seq (length os1) (length (optim :: os2))) (optim :: os2))
      with ((length os1, optim) :: zip (seq (S (length os1)) (length os2)) os2).
    rewrite run_for_each_cons. unfold body at 1. rewrite run_bind.
    change (get_world w2) with (Ok w2, w2). cbv beta iota.
    by rewrite Hopt, Hempty. }
  rewrite Hr. simpl. split_and!; try done.
  apply run_events_eq. fold r. rewrite Hr. simpl. rewrite Htr2, Htr1.
  by rewrite <- app_assoc.
Qed.

Lemma update_learning_rate_stops_witness :
  run_events (update_learning_rate demo_model true) demo_world_no_groups
  = [SchedulerStep 0; SchedulerStep 1; Print (MsgLearningRate 1 (1 # 10)%Q)].
Proof.
  refine (proj1 (proj2 (update_learning_rate_stops_at_empty_optimizer
            demo_model true demo_world_no_groups [0; 1] [0] [] 1 eq_refl eq_refl _ _))).
  - repeat constructor. vm_compute. discriminate.
  - vm_compute. reflexivity.
Defined.


(** ** Saving, then loading *)

Lemma filter_none {X : Type} (P : X → Prop) `{!∀ x, Decision (P x)} (xs : list X) :
  (∀ x, x ∈ xs → ¬ P x) → filter P xs = [].
Proof.
  induction xs as [|x xs IH]; intros Hnone; [done|].
  rewrite filter_cons_False by (apply Hnone, list_elem_of_here).
  apply IH. intros y Hy. by apply Hnone, list_elem_of_further.
Qed.

Lemma state_dict_keys (w0 : world) (nps : list (string * nat)) :
  ((λ kp : string * nat, (kp.1, ITensor (data (params w0 kp.2)))) <$> nps).*1 = nps.*1.
Proof. induction nps as [|kp nps IH]; [done|]. rewrite !fmap_cons, IH. done. Qed.

Lemma state_dict_at_lookup (w0 : world) (net : module) (kp : string * nat) :
  NoDup (named_parameters net).*1 →
  kp ∈ named_parameters net →
  state_dict_at w0 net !! kp.1 = Some (ITensor (data (params w0 kp.2))).
Proof.
  intros Hnodup Hkp. unfold state_dict_at. apply elem_of_list_to_map_1.
  - by rewrite state_dict_keys.
  - apply list_elem_of_fmap. by exists kp.
Qed.

(** A state dict has exactly the keys of its module. *)
Lemma state_dict_at_keys_match (w0 : world) (net : module) :
  keys_match net (state_dict_at w0 net) = true.
Proof.
  unfold keys_match. apply bool_decide_eq_true. split.
  - unfold missing_keys. apply filter_none. intros k Hk Hnone.
    unfold state_dict_at in Hnone. apply not_elem_of_list_to_map_2 in Hnone.
    by rewrite state_dict_keys in Hnone.
  - unfold unexpected_keys. apply filter_none. intros k Hk Hout.
    apply list_elem_of_fmap in Hk as ([k' v] & -> & Hkv).
    apply elem_of_map_to_list in Hkv. simpl in Hout.
    unfold state_dict_at in Hkv.
    rewrite not_elem_of_list_to_map_1 in Hkv; [done|].
    by rewrite state_dict_keys.
Qed.

(** The copying pass of [load_state_dict] over entries that the dictionary
    holds as a world [w0] had them. *)
Lemma load_params_saved (w0 : world) (sd : gmap string item) (kps : list (string * nat))
    (acc : (nat → param) * bool) :
  (∀ kp, kp ∈ kps → sd !! kp.1 = Some (ITensor (data (params w0 kp.2)))) →
  (∀ l, length (data (acc.1 l)) = length (data (params w0 l))) →
  let loaded := foldl (λ acc kp, load_param sd kp acc) acc kps in
  loaded.2 = acc.2 ∧
  ∀ l, loaded.1 l = if decide (l ∈ kps.*2)
                    then Param (data (params w0 l)) (requires_grad (acc.1 l))
                    else acc.1 l.
Proof.
  revert acc. induction kps as [|[k l0] kps IH]; intros [store flag] Hsd Hshape.
  - cbn [foldl fst snd]. split; [done|]. intros l.
    rewrite decide_False; [done|]. intros Hin. by apply elem_of_nil in Hin.
  - cbn [fst] in Hshape.
    assert (Hstep : load_param sd (k, l0) (store, flag)
                    = (<[l0 := Param (data (params w0 l0)) (requires_grad (store l0))]> store,
                       flag)).
    { pose proof (Hsd (k, l0) (list_elem_of_here _ _)) as Hk. cbn [fst snd] in Hk.
      unfold load_param. cbn [fst snd]. rewrite Hk.
      by rewrite bool_decide_true by (by rewrite Hshape). }
    cbn [foldl]. rewrite Hstep.
    destruct (IH (<[l0 := Param (data (params w0 l0)) (requires_grad (store l0))]> store,
                  flag)) as [Hflag Hstore].
    { intros kp Hkp. by apply Hsd, list_elem_of_further. }
    { intros l. cbn [fst]. destruct (decide (l0 = l)) as [->|Hne].
      - by rewrite fn_lookup_insert.
      - by rewrite fn_lookup_insert_ne. }
    split; [exact Hflag|]. intros l. rewrite Hstore. cbn [fst]. rewrite fmap_cons. cbn [snd].
    destruct (decide (l0 = l)) as [->|Hne].
    + rewrite fn_lookup_insert. cbn [requires_grad].
      rewrite (decide_True (P := l ∈ l :: kps.*2)) by apply list_elem_of_here.
      by destruct (decide (l ∈ kps.*2)).
    + rewrite fn_lookup_insert_ne by done.
      destruct (decide (l ∈ kps.*2)) as [Hin|Hout].
      * by rewrite decide_True by (by apply list_elem_of_further).
      * rewrite decide_False; [done|].
        intros Hl. apply elem_of_cons in Hl as [->|Hl]; done.
Qed.

(** [load_state_dict] of the state dict a module had in the world [w0]. *)
Lemma run_load_state_dict_saved (w0 w : world) (net : module) (strict : bool) :
  NoDup (named_parameters net).*1 →
  (∀ l, length (data (params w l)) = length (data (params w0 l))) →
  let r := load_state_dict net (state_dict_at w0 net) strict w in
  outcome r = Ok tt ∧ files (final r) = files w ∧
  ∀ l, params (final r) l = restored w0 (named_parameters net).*2 (params w) l.
Proof.
  intros Hnodup Hshape r.
  destruct (load_params_saved w0 (state_dict_at w0 net) (named_parameters net)
              (params w, false)) as [Hflag Hstore]; [|done|].
  { intros kp Hkp. by apply state_dict_at_lookup. }
  destruct (load_params_fold (state_dict_at w0 net) (params w) (named_parameters net)
              (params w, false)) as [_ Hfits]; [done|].
  rewrite Hflag in Hfits. cbn [snd orb] in Hfits.
  destruct (run_load_state_dict net (state_dict_at w0 net) strict w) as (w' & Hrun & _).
  split_and!.
  - unfold r. rewrite Hrun. unfold outcome, loadable, entries_ok. cbn [fst].
    rewrite state_dict_at_keys_match, orb_true_r, andb_true_r.
    by destruct (forallb _ _).
  - unfold r. by rewrite final_load_state_dict.
  - intros l. unfold r. rewrite final_load_state_dict. cbn [params set_params].
    apply Hstore.
Qed.

Lemma run_load_one_saved (w0 w : world) (net : module) (path : string) (strict : bool) :
  files w !! path = Some (Pickled (state_dict_at w0 (unwrap net))) →
  NoDup (named_parameters (unwrap net)).*1 →
  (∀ l, length (data (params w l)) = length (data (params w0 l))) →
  let r := load_one net path strict w in
  outcome r = Ok tt ∧ files (final r) = files w ∧
  ∀ l, params (final r) l = restored w0 (named_parameters (unwrap net)).*2 (params w) l.
Proof.
  intros Hfile Hnodup Hshape r.
  assert (Hr : r = load_state_dict (unwrap net) (state_dict_at w0 (unwrap net)) strict
                     (add_event (TorchLoad path) w)).
  { unfold r, load_one, os_path_isfile.
    rewrite !run_bind. change (get_world w) with (Ok w, w). cbv beta iota.
    change (mret (M := M) (bool_decide (is_Some (files w !! path))) w)
      with (Ok (bool_decide (is_Some (files w !! path))), w).
    cbv beta iota. rewrite Hfile.
    rewrite bool_decide_true by (by eexists). cbn [negb].
    unfold torch_load. rewrite !run_bind.
    change (emit (TorchLoad path) w) with (Ok tt, add_event (TorchLoad path) w).
    cbv beta iota. rewrite !run_bind.
    change (get_world (add_event (TorchLoad path) w))
      with (Ok (add_event (TorchLoad path) w), add_event (TorchLoad path) w).
    cbv beta iota.
    change (files (add_event (TorchLoad path) w)) with (files w). rewrite Hfile.
    reflexivity. }
  rewrite Hr.
  apply (run_load_state_dict_saved w0 (add_event (TorchLoad path) w) (unwrap net) strict
           Hnodup Hshape).
Qed.

Lemma restored_shape (w0 : world) (locs : list nat) (ps : nat → param) (l : nat) :
  length (data (ps l)) = length (data (params w0 l)) →
  length (data (restored w0 locs ps l)) = length (data (params w0 l)).
Proof. intros Hshape. unfold restored. by destruct (decide _). Qed.

(** The loop shared by both load methods over items whose files hold
    their networks as the world [w0] had them; [prep] is what the body
    does before the [isfile] test. *)
Lemma restore_loop {X : Type} (g : X → module) (h : X → string)
    (prep : X → world → world) (strict : bool) (w0 : world) (xs : list X) (w : world) :
  (∀ x w, files (prep x w) = files w ∧ params (prep x w) = params w) →
  (∀ x, x ∈ xs → files w !! h x = Some (Pickled (state_dict_at w0 (unwrap (g x))))) →
  (∀ x, x ∈ xs → distinct_keys (g x)) →
  (∀ l, length (data (params w l)) = length (data (params w0 l))) →
  let r := for_each xs (λ x w, load_one (g x) (h x) strict (prep x w)) w in
  outcome r = Ok tt ∧ files (final r) = files w ∧
  ∀ l, params (final r) l = restored w0 (checkpointed (g <$> xs)) (params w) l.
Proof.
  intros Hprep. revert w. induction xs as [|x xs IH]; intros w Hfiles Hkeys Hshape.
  - cbn [for_each]. by split_and!.
  - rewrite run_for_each_cons.
    destruct (Hprep x w) as [Hpf Hpp].
    destruct (run_load_one_saved w0 (prep x w) (g x) (h x) strict) as (Hok1 & Hf1 & Hp1).
    { rewrite Hpf. apply Hfiles, list_elem_of_here. }
    { apply Hkeys, list_elem_of_here. }
    { intros l. by rewrite Hpp. }
    unfold outcome, final in Hok1, Hf1, Hp1.
    destruct (load_one (g x) (h x) strict (prep x w)) as [[[]|e] w1];
      cbn [fst snd] in Hok1, Hf1, Hp1; [|done].
    cbv beta iota.
    destruct (IH w1) as (Hok & Hf & Hp).
    { intros y Hy. rewrite Hf1, Hpf. by apply Hfiles, list_elem_of_further. }
    { intros y Hy. by apply Hkeys, list_elem_of_further. }
    { intros l. rewrite Hp1. apply restored_shape. by rewrite Hpp. }
    split_and!; [exact Hok|by rewrite Hf, Hf1|].
    intros l. rewrite Hp. unfold restored at 1. rewrite Hp1. unfold restored.
    rewrite Hpp. unfold checkpointed. rewrite fmap_cons, bind_cons.
    fold (checkpointed (g <$> xs)).
    destruct (decide (l ∈ checkpointed (g <$> xs))) as [Hin|Hout];
      destruct (decide (l ∈ (named_parameters (unwrap (g x))).*2)) as [Hin1|Hout1];
      destruct (decide (l ∈ (named_parameters (unwrap (g x))).*2
                           ++ checkpointed (g <$> xs))) as [Hin2|Hout2];
      try done; exfalso;
      first [ apply Hout2, elem_of_app; tauto
            | apply elem_of_app in Hin2; tauto ].
Qed.

(** The loop shared by both save methods, where every write succeeds and
    items that share a path share a network: each file holds the state
    dict of its network as the world had it when the loop began. *)
Lemma save_loop_content {X : Type} (g : X → module) (h : X → string) (xs : list X)
    (w : world) :
  (∀ x, x ∈ xs → write_error w (h x) = None) →
  (∀ x y, x ∈ xs → y ∈ xs → h x = h y → unwrap (g x) = unwrap (g y)) →
  let r := for_each xs (λ x, save_one (g x) (h x)) w in
  params (final r) = params w ∧
  ∀ x, x ∈ xs → files (final r) !! h x = Some (Pickled (state_dict_at w (unwrap (g x)))).
Proof.
  revert w. induction xs as [|x xs IH]; intros w Herr Hsame.
  - simpl. split; [done|]. intros x Hx. by apply elem_of_nil in Hx.
  - rewrite run_for_each_cons, run_save_one.
    rewrite (Herr x) by apply list_elem_of_here. cbv beta iota.
    set (w1 := set_files _ _).
    destruct (IH w1) as [Hparams Hcontent].
    { intros y Hy. by apply (Herr y), list_elem_of_further. }
    { intros y z Hy Hz. by apply Hsame; apply list_elem_of_further. }
    destruct (save_loop g h xs w1) as (_ & _ & _ & Hother & _).
    split; [by rewrite Hparams|].
    intros y Hy.
    destruct (decide (h y ∈ h <$> xs)) as [Hin|Hout].
    + apply list_elem_of_fmap in Hin as (z & Hz & Hzin).
      rewrite Hz, (Hcontent z Hzin).
      rewrite <- (Hsame y z Hy (list_elem_of_further _ _ _ Hzin) Hz). done.
    + rewrite (Hother _ Hout).
      apply elem_of_cons in Hy as [->|Hy].
      * subst w1. cbn [files set_files]. by rewrite lookup_insert_eq.
      * exfalso. apply Hout, list_elem_of_fmap. by exists y.
Qed.


(** Checkpoint paths: distinct names give distinct files. *)
Lemma length_append (a b : string) :
  String.length (a +:+ b) = String.length a + String.length b.
Proof.
  induction a as [|c a IH]; [done|].
  change (String c a +:+ b) with (String c (a +:+ b)). cbn [String.length]. by rewrite IH.
Qed.

Lemma append_inj_r (a b s : string) : a +:+ s = b +:+ s → a = b.
Proof.
  revert b. induction a as [|c a IH]; intros [|c' b] Heq; [done| | |].
  - apply (f_equal String.length) in Heq. rewrite !length_append in Heq.
    cbn [String.length] in Heq. lia.
  - apply (f_equal String.length) in Heq. rewrite !length_append in Heq.
    cbn [String.length] in Heq. lia.
  - change (String c (a +:+ s) = String c' (b +:+ s)) in Heq.
    injection Heq as -> Heq. by rewrite (IH b Heq).
Qed.

Lemma os_path_join_inj (d b1 b2 : string) :
  startswith_sep b1 = startswith_sep b2 →
  os_path_join d b1 = os_path_join d b2 → b1 = b2.
Proof.
  unfold os_path_join. intros ->. destruct (startswith_sep b2); [done|].
  destruct (_ || _); intros Heq.
  - by apply (inj (String.append d)) in Heq.
  - apply (inj (String.append d)) in Heq. by apply (inj (String.append "/")) in Heq.
Qed.

Lemma subnet_path_inj (d : string) (epoch : pyval) (n1 n2 : string) :
  os_path_join d (subnet_filename epoch n1) = os_path_join d (subnet_filename epoch n2) →
  n1 = n2.
Proof.
  intros Heq. apply os_path_join_inj in Heq.
  - unfold subnet_filename in Heq.
    apply (inj (String.append (py_str epoch))) in Heq.
    apply (inj (String.append "_subnet_")) in Heq.
    by apply append_inj_r in Heq.
  - unfold subnet_filename. by destruct (py_str epoch).
Qed.

Lemma net_path_inj (d : string) (epoch : pyval) (n1 n2 : pyval) :
  os_path_join d (net_filename epoch n1) = os_path_join d (net_filename epoch n2) →
  py_str n1 = py_str n2.
Proof.
  intros Heq. apply os_path_join_inj in Heq.
  - unfold net_filename in Heq.
    apply (inj (String.append (py_str epoch))) in Heq.
    apply (inj (String.append "_net_")) in Heq.
    by apply append_inj_r in Heq.
  - unfold net_filename. by destruct (py_str epoch).
Qed.

(** The file of the other states is never the file of a network. *)
Lemma states_path_fresh (d : string) (epoch name : pyval) :
  os_path_join d (states_filename epoch) ≠ os_path_join d (net_filename epoch name).
Proof.
  intros Heq. apply os_path_join_inj in Heq.
  - unfold states_filename, net_filename in Heq.
    apply (inj (String.append (py_str epoch))) in Heq.
    change ("_net_" +:+ py_str name +:+ ".pth")
      with (String "_" (String "n" ("et_" +:+ py_str name +:+ ".pth"))) in Heq.
    discriminate Heq.
  - unfold states_filename, net_filename. by destruct (py_str epoch).
Qed.

Lemma NoDup_fst_eq {K V : Type} `{!EqDecision K} (l : list (K * V)) (x y : K * V) :
  NoDup l.*1 → x ∈ l → y ∈ l → x.1 = y.1 → x = y.
Proof.
  induction l as [|z l IH]; intros Hnodup Hx Hy Heq.
  - by apply elem_of_nil in Hx.
  - rewrite fmap_cons in Hnodup. apply NoDup_cons in Hnodup as [Hz Hnodup].
    apply elem_of_cons in Hx as [->|Hx]; apply elem_of_cons in Hy as [->|Hy].
    + done.
    + exfalso. apply Hz. rewrite Heq. apply list_elem_of_fmap. by exists y.
    + exfalso. apply Hz. rewrite <- Heq. apply list_elem_of_fmap. by exists x.
    + by apply IH.
Qed.

Lemma zip_backed (self : BaseModel) (names : list pyval) (nets : list module) :
  Forall2 (backed_by self) names nets →
  ∀ x, x ∈ zip names nets → backed_by self x.1 x.2.
Proof.
  induction 1 as [|name net names nets Hback _ IH]; intros x Hx.
  - by apply elem_of_nil in Hx.
  - simpl in Hx. apply elem_of_cons in Hx as [->|Hx]; [done|by apply IH].
Qed.

(** X18. Subnetworks saved by [save_subnetworks] come back with
    [load_subnetworks] from the directory they were saved to.  Where the
    names in the dictionary are distinct, so are those of each
    subnetwork's parameters, and every write succeeds: in any later world
    with the same files and parameters of the same shapes, the load
    returns, and it leaves every parameter of a wanted subnetwork with the
    data it had when saved and the gradient flag it has now, and every
    other parameter as it is. *)
Theorem save_then_load_subnetworks
    (self : BaseModel) (epoch : pyval) (names : option (list string)) (w w2 : world)
    (nets : list (string * module)) :
  subnetworks self = Some nets →
  NoDup nets.*1 →
  Forall (λ x, distinct_keys x.2) nets →
  Forall (λ x, write_error w (os_path_join (save_dir self) (subnet_filename epoch x.1))
               = None) nets →
  files w2 = files (final (save_subnetworks self epoch w)) →
  (∀ l, length (data (params w2 l)) = length (data (params w l))) →
  let wanted := filter (λ x : string * module, x.1 ∈ default (nets.*1) names) nets in
  let r := load_subnetworks self epoch names (Some (save_dir self)) w2 in
  outcome r = Ok tt ∧
  ∀ l, params (final r) l = restored w (checkpointed wanted.*2) (params w2) l.
Proof.
  intros Hnets Hnodup Hkeys Herr Hfiles Hshape wanted r.
  set (path := λ x : string * module,
         os_path_join (save_dir self) (subnet_filename epoch x.1)).
  destruct (save_loop_content snd path nets w) as [_ Hcontent].
  { intros x Hx. rewrite Forall_forall in Herr. by apply Herr. }
  { intros x y Hx Hy Hpath. apply subnet_path_inj in Hpath.
    by rewrite (NoDup_fst_eq nets x y Hnodup Hx Hy Hpath). }
  assert (Hsave : final (save_subnetworks self epoch w)
                  = final (for_each nets (λ x, save_one x.2 (path x)) w))
    by (by rewrite (run_save_subnetworks self epoch w nets Hnets)).
  destruct (restore_loop snd path (λ _ w, w) true w wanted w2) as (Hok & _ & Hparams).
  { done. }
  { intros x Hx. apply list_elem_of_filter in Hx as [_ Hx].
    rewrite Hfiles, Hsave. by apply Hcontent. }
  { intros x Hx. apply list_elem_of_filter in Hx as [_ Hx].
    rewrite Forall_forall in Hkeys. by apply Hkeys. }
  { exact Hshape. }
  unfold r.
  rewrite (run_load_subnetworks self epoch names (Some (save_dir self)) w2 nets
             (save_dir self) Hnets eq_refl).
  split; [exact Hok|exact Hparams].
Qed.

Lemma save_then_load_subnetworks_witness :
  data (params (final (load_subnetworks demo_model_resuming (VInt 3) None
                         (Some "checkpoints/run")
                         (zero_data (final (save_subnetworks demo_model_resuming (VInt 3)
                                              demo_world))))) 0)
  = [1; 2; 3]%Z.
Proof.
  destruct (save_then_load_subnetworks demo_model_resuming (VInt 3) None demo_world
              (zero_data (final (save_subnetworks demo_model_resuming (VInt 3) demo_world)))
              [("a", demo_net_a); ("b", demo_net_b)] eq_refl) as [_ Hparams].
  - apply (bool_decide_unpack _). vm_compute. exact I.
  - repeat constructor; apply (bool_decide_unpack _); vm_compute; exact I.
  - repeat constructor.
  - reflexivity.
  - intros l. unfold zero_data. cbn [params set_params data].
    rewrite length_fmap. reflexivity.
  - rewrite Hparams. vm_compute. reflexivity.
Defined.

(** X19. Networks saved by [save_networks] come back with [load_networks]
    when the model resumes from its own [save_dir].  Where the registry
    resolves, the names of each network's parameters are distinct and the
    write of every network succeeds: in any later world with the same
    files and parameters of the same shapes, the load returns, and it
    leaves every parameter of a registered network with the data it had
    when saved and the gradient flag it has now, and every other parameter
    as it is; the file of the other states does not get in the way. *)
Theorem save_then_load_networks
    (self : BaseModel) (epoch : pyval) (other_states : gmap string item) (w w2 : world)
    (nets : list module) :
  get_networks self = Ok nets →
  opt_resume_dir (opt self) = Some (save_dir self) →
  Forall distinct_keys nets →
  Forall (λ name, write_error w (os_path_join (save_dir self) (net_filename epoch name))
                  = None) (model_names self) →
  files w2 = files (final (save_networks self epoch other_states w)) →
  (∀ l, length (data (params w2 l)) = length (data (params w l))) →
  let r := load_networks self epoch w2 in
  outcome r = Ok tt ∧
  ∀ l, params (final r) l = restored w (checkpointed nets) (params w2) l.
Proof.
  intros Hnets Hdir Hkeys Herr Hfiles Hshape r.
  pose proof (proj1 (get_networks_backed self nets) Hnets) as Hback.
  pose proof (get_networks_length self nets Hnets) as Hlen.
  set (path := λ x : pyval * module,
         os_path_join (save_dir self) (net_filename epoch x.1)).
  set (xs := zip (model_names self) nets).
  destruct (save_loop_content snd path xs w) as [_ Hcontent].
  { intros [name net] Hx. unfold xs in Hx. apply elem_of_zip_l in Hx.
    rewrite Forall_forall in Herr. by apply Herr. }
  { intros x y Hx Hy Hpath. apply net_path_inj in Hpath.
    destruct (zip_backed self _ _ Hback x Hx) as (s & Hs & Hattr).
    destruct (zip_backed self _ _ Hback y Hy) as (s' & Hs' & Hattr').
    rewrite Hs, Hs' in Hpath. cbn [py_str] in Hpath. subst s'.
    rewrite Hattr in Hattr'. by injection Hattr' as ->. }
  assert (Hsaved : ∀ x, x ∈ xs →
            files w2 !! path x = Some (Pickled (state_dict_at w (unwrap x.2)))).
  { intros x Hx. rewrite Hfiles, (run_save_networks self epoch other_states w nets Hnets).
    rewrite run_torch_save. fold xs.
    change (for_each xs (λ x, save_one x.2
              (os_path_join (save_dir self) (net_filename epoch x.1))) w)
      with (for_each xs (λ x, save_one x.2 (path x)) w).
    destruct (write_error _ _); cbn [final snd files set_files add_event].
    - by apply Hcontent.
    - rewrite lookup_insert_ne by apply states_path_fresh. by apply Hcontent. }
  destruct (restore_loop snd path (λ x, add_event (Print (MsgLoading x.1))) false w xs w2)
    as (Hok & _ & Hparams).
  { done. }
  { exact Hsaved. }
  { intros [name net] Hx. unfold xs in Hx. apply elem_of_zip_r in Hx.
    rewrite Forall_forall in Hkeys. by apply Hkeys. }
  { exact Hshape. }
  assert (Hsnd : snd <$> xs = nets) by (apply snd_zip; lia).
  rewrite Hsnd in Hparams.
  assert (Hr : r = for_each xs (λ x w, load_one x.2 (path x) false
                                         (add_event (Print (MsgLoading x.1)) w)) w2).
  { unfold r. rewrite (run_load_networks self epoch w2 nets Hnets), Hdir. reflexivity. }
  rewrite Hr. split; [exact Hok|exact Hparams].
Qed.

Lemma save_then_load_networks_witness :
  data (params (final (load_networks demo_model_resuming (VInt 3)
                         (zero_data (final (save_networks demo_model_resuming (VInt 3) ∅
                                              demo_world))))) 0)
  = [1; 2; 3]%Z.
Proof.
  destruct (save_then_load_networks demo_model_resuming (VInt 3) ∅ demo_world
              (zero_data (final (save_networks demo_model_resuming (VInt 3) ∅ demo_world)))
              [demo_net_a]) as [_ Hparams].
  - vm_compute. reflexivity.
  - reflexivity.
  - repeat constructor; apply (bool_decide_unpack _); vm_compute; exact I.
  - repeat constructor.
  - reflexivity.
  - intros l. unfold zero_data. cbn [params set_params data].
    rewrite length_fmap. reflexivity.
  - rewrite Hparams. vm_compute. reflexivity.
Defined.


(** ** What [setup] does to the gradient flags *)

Lemma bind_returns_inv {A B : Type} (m : M A) (k : A → M B) (w : world) (b : B) :
  outcome ((m ≫= k) w) = Ok b →
  ∃ a w', m w = (Ok a, w') ∧ (m ≫= k) w = k a w' ∧ outcome (k a w') = Ok b.
Proof.
  intros Hout. pose proof Hout as Hk. rewrite run_bind in Hk.
  destruct (m w) as [[a|e] w'] eqn:Hm; [|done].
  exists a, w'. split_and!; [done| |done]. by rewrite run_bind, Hm.
Qed.

(** A [setup] that returns has run its five statements one after the
    other, each returning. *)
Lemma setup_stages (gs : nat → options → result scheduler) (self self' : BaseModel)
    (o : options) (w : world) :
  outcome (setup gs self o w) = Ok self' →
  ∃ w1 w2 w3 w4,
    setup_schedulers gs self o w = (Ok self', w1) ∧
    setup_load_subnetworks self' o w1 = (Ok tt, w2) ∧
    setup_load_networks self' o w2 = (Ok tt, w3) ∧
    setup_freeze_subnetworks self' o w3 = (Ok tt, w4) ∧
    final (setup gs self o w)
    = final (print_networks self' (opt_verbose o)
               (add_event (Enter (PrintNetworks (opt_verbose o))) w4)).
Proof.
  intros Hout. unfold setup in *.
  destruct (bind_returns_inv _ _ _ _ Hout) as (self1 & w1 & H1 & E1 & O1).
  cbv beta in E1, O1.
  destruct (bind_returns_inv _ _ _ _ O1) as ([] & w2 & H2 & E2 & O2).
  destruct (bind_returns_inv _ _ _ _ O2) as ([] & w3 & H3 & E3 & O3).
  destruct (bind_returns_inv _ _ _ _ O3) as ([] & w4 & H4 & E4 & O4).
  destruct (bind_returns_inv _ _ _ _ O4) as ([] & w5 & H5 & E5 & O5).
  destruct (bind_returns_inv _ _ _ _ O5) as ([] & w6 & H6 & E6 & O6).
  injection H5 as <-. injection O6 as ->.
  exists w1, w2, w3, w4. split_and!; try done.
  rewrite E1, E2, E3, E4, E5, E6, H6. done.
Qed.

Lemma keeps_new_schedulers {C : Type} (proj : world → C)
    (gs : nat → options → result scheduler) (os : list nat) (o : options) :
  (∀ f w, proj (set_scheds f w) = proj w) →
  (∀ n w, proj (set_next_sched n w) = proj w) →
  keeps proj (new_schedulers gs os o).
Proof.
  intros Hscheds Hnext. induction os as [|optim os IH]; cbn [new_schedulers].
  - apply keeps_ret.
  - unfold new_scheduler. keeps_auto; exact IH.
Qed.

Lemma keeps_setup_schedulers {C : Type} (proj : world → C)
    (gs : nat → options → result scheduler) (self : BaseModel) (o : options) :
  (∀ f w, proj (set_scheds f w) = proj w) →
  (∀ n w, proj (set_next_sched n w) = proj w) →
  keeps proj (setup_schedulers gs self o).
Proof.
  intros Hscheds Hnext. unfold setup_schedulers, read_attr.
  keeps_auto; by apply keeps_new_schedulers.
Qed.

Lemma setup_schedulers_subnetworks (gs : nat → options → result scheduler)
    (self self' : BaseModel) (o : options) (w w1 : world) :
  setup_schedulers gs self o w = (Ok self', w1) → subnetworks self' = subnetworks self.
Proof.
  unfold setup_schedulers. destruct (is_train self); [|by intros [= <- _]].
  rewrite run_bind. unfold read_attr. destruct (optimizers self) as [os|]; [|done].
  change (mret (M := M) os w) with (Ok os, w). cbv beta iota. rewrite run_bind.
  destruct (new_schedulers gs os o w) as [[ss|e] w']; [|done].
  by intros [= <- _].
Qed.

Lemma keeps_load_state_dict_flag (l : nat) (net : module) (sd : gmap string item)
    (strict : bool) :
  keeps (λ w, requires_grad (params w l)) (load_state_dict net sd strict).
Proof.
  intros w. rewrite final_load_state_dict. cbn [params set_params].
  by rewrite load_params_fold_flags.
Qed.

(** Every name a toggling loop that returns has met is a key. *)
Lemma toggle_loop_returns (nets : list (string * module)) (flag : bool)
    (names : list string) (w : world) :
  outcome (for_each names (λ name, net ← subscript nets name; requires_grad_ net flag) w)
  = Ok tt →
  Forall (λ name, is_Some (dict_get nets name)) names.
Proof.
  revert w. induction names as [|name names IH]; intros w Hout; [constructor|].
  rewrite run_for_each_cons, run_bind in Hout. unfold subscript in Hout.
  destruct (dict_get nets name) as [net|] eqn:Hget; [|done].
  constructor; [by eexists|].
  change (mret (M := M) net w) with (Ok net, w) in Hout. cbv beta iota in Hout.
  destruct (requires_grad_ net flag w) as [[[]|e] w1]; [|done].
  by apply (IH w1).
Qed.

(** X20. After a [setup] that returns, a parameter requires no gradient
    exactly when it belongs to a subnetwork that [opt.freeze_subnetworks]
    names or required none before: making the schedulers, loading the
    pretrained subnetworks and the checkpoints, and printing change no
    gradient flag, and the freezing comes after the loading. *)
Theorem setup_gradient_flags (gs : nat → options → result scheduler)
    (self self' : BaseModel) (o : options) (w : world) :
  outcome (setup gs self o w) = Ok self' →
  ∀ l, requires_grad (params (final (setup gs self o w)) l)
       = if decide (l ∈ frozen_by_setup self o) then false
         else requires_grad (params w l).
Proof.
  intros Hout l.
  destruct (setup_stages gs self self' o w Hout) as (w1 & w2 & w3 & w4 & H1 & H2 & H3 & H4 & ->).
  set (flag := λ w : world, requires_grad (params w l)).
  change (flag (final (print_networks self' (opt_verbose o)
                         (add_event (Enter (PrintNetworks (opt_verbose o))) w4)))
          = if decide (l ∈ frozen_by_setup self o) then false else flag w).
  rewrite (keeps_print_networks flag self' (opt_verbose o)) by done.
  change (flag (add_event (Enter (PrintNetworks (opt_verbose o))) w4)) with (flag w4).
  assert (Hw1 : flag w1 = flag w).
  { pose proof (keeps_setup_schedulers flag gs self o) as Hk.
    specialize (Hk (λ _ _, eq_refl) (λ _ _, eq_refl) w). by rewrite H1 in Hk. }
  assert (Hload : ∀ net sd strict, keeps flag (load_state_dict net sd strict))
    by (intros; apply keeps_load_state_dict_flag).
  assert (Hw2 : flag w2 = flag w1).
  { assert (Hk : keeps flag (setup_load_subnetworks self' o)).
    { unfold setup_load_subnetworks, split_option, print.
      keeps_auto; by apply keeps_load_subnetworks. }
    specialize (Hk w1). by rewrite H2 in Hk. }
  assert (Hw3 : flag w3 = flag w2).
  { assert (Hk : keeps flag (setup_load_networks self' o)).
    { unfold setup_load_networks. keeps_auto; by apply keeps_load_networks. }
    specialize (Hk w2). by rewrite H3 in Hk. }
  rewrite <- Hw1, <- Hw2, <- Hw3.
  pose proof (setup_schedulers_subnetworks gs self self' o w w1 H1) as Hsub.
  unfold frozen_by_setup. rewrite <- Hsub.
  unfold setup_freeze_subnetworks in H4.
  destruct (opt_freeze_subnetworks o) as [s|] eqn:Hopt; cycle 1.
  { cbn [truthy] in H4. injection H4 as <-. done. }
  destruct (truthy (Some s)) eqn:Htruthy; cycle 1.
  { injection H4 as <-. by destruct (subnetworks self'). }
  rewrite run_bind in H4. cbn [split_option] in H4.
  change (mret (M := M) (split_comma s) w3) with (Ok (split_comma s), w3) in H4.
  cbv beta iota in H4. rewrite run_bind in H4.
  change (mret (M := M) (split_comma s) w3) with (Ok (split_comma s), w3) in H4.
  cbv beta iota in H4. rewrite run_bind in H4.
  change (emit (Enter (FreezeSubnetworks (split_comma s))) w3)
    with (Ok tt, add_event (Enter (FreezeSubnetworks (split_comma s))) w3) in H4.
  cbv beta iota in H4. rewrite run_bind in H4.
  set (w3' := add_event (Enter (FreezeSubnetworks (split_comma s))) w3) in H4.
  destruct (subnetworks self') as [nets|] eqn:Hnets.
  - pose proof (run_toggle self' false (split_comma s) w3' nets Hnets) as Hrun.
    cbv beta iota in Hrun. rewrite Hrun in H4.
    pose proof (toggle_loop_returns nets false (split_comma s) w3') as Hkeys.
    pose proof (toggle_loop_lookup nets false (split_comma s) w3') as Hlook.
    unfold outcome, final in Hkeys, Hlook.
    destruct (for_each _ _ w3') as [[[]|e] w3'']; [|done].
    cbn [fst snd] in Hkeys, Hlook. injection H4 as <-.
    unfold flag. cbn [params add_event]. rewrite (Hlook (Hkeys eq_refl) l).
    by destruct (decide _).
  - exfalso. unfold freeze_subnetworks, get_subnetworks in H4. rewrite Hnets in H4.
    rewrite run_bind in H4. done.
Qed.

Lemma setup_gradient_flags_witness :
  requires_grad (params (final (setup demo_get_scheduler demo_model_training
                                      demo_options_freezing demo_world)) 1) = false.
Proof.
  rewrite (setup_gradient_flags demo_get_scheduler demo_model_training
             (set_schedulers [2; 3] demo_model_training) demo_options_freezing demo_world).
  - vm_compute. reflexivity.
  - vm_compute. reflexivity.
Defined.


(** ** The base class *)

(** X21. On a model whose class does not override [get_subnetworks], the
    four methods that work on subnetworks raise its [NotImplementedError]
    before doing anything: no parameter is switched, no file is written or
    read, nothing is printed. *)
Theorem subnetwork_methods_need_get_subnetworks
    (self : BaseModel) (epoch : pyval) (network_names : list string)
    (names : option (list string)) (resume_dir : option string) (w : world) :
  subnetworks self = None →
  freeze_subnetworks self network_names w = (Raise NotImplementedError, w) ∧
  unfreeze_subnetworks self network_names w = (Raise NotImplementedError, w) ∧
  save_subnetworks self epoch w = (Raise NotImplementedError, w) ∧
  load_subnetworks self epoch names resume_dir w = (Raise NotImplementedError, w).
Proof.
  intros Hnone.
  unfold freeze_subnetworks, unfreeze_subnetworks, save_subnetworks, load_subnetworks.
  rewrite !run_bind. unfold get_subnetworks. rewrite Hnone. done.
Qed.

Lemma subnetwork_methods_witness :
  save_subnetworks demo_model_base (VInt 3) demo_world
  = (Raise NotImplementedError, demo_world).
Proof.
  exact (proj1 (proj2 (proj2 (subnetwork_methods_need_get_subnetworks
           demo_model_base (VInt 3) [] None None demo_world eq_refl)))).
Defined.



(** ** Strict and non-strict loading *)

Lemma forallb_true_iff {X : Type} (f : X → bool) (xs : list X) :
  forallb f xs = true ↔ ∀ x, x ∈ xs → f x = true.
Proof.
  induction xs as [|x xs IH]; cbn [forallb].
  - split; [|done]. intros _ x Hx. by apply elem_of_nil in Hx.
  - rewrite andb_true_iff, IH. split.
    + intros [Hx Hxs] y Hy. apply elem_of_cons in Hy as [->|Hy]; [done|by apply Hxs].
    + intros Hall. split; [apply Hall, list_elem_of_here|].
      intros y Hy. by apply Hall, list_elem_of_further.
Qed.

Lemma forallb_file_loadable_same_shapes {X : Type} (g : X → module) (h : X → string)
    (strict : bool) (xs : list X) (w w' : world) :
  same_shapes w w' →
  forallb (λ x, file_loadable w' strict (h x) (g x)) xs
  = forallb (λ x, file_loadable w strict (h x) (g x)) xs.
Proof.
  intros Hshape. induction xs as [|x xs IH]; [done|].
  cbn [forallb]. by rewrite IH, (file_loadable_same_shapes w w').
Qed.

(** The loop shared by both load methods returns exactly when every file
    it meets can be loaded with its [strict]; [prep] is what the body does
    before the [isfile] test. *)
Lemma load_loop_returns {X : Type} (g : X → module) (h : X → string)
    (prep : X → world → world) (strict : bool) (xs : list X) (w : world) :
  (∀ x w, same_shapes w (prep x w)) →
  returns (for_each xs (λ x w, load_one (g x) (h x) strict (prep x w)) w)
  = forallb (λ x, file_loadable w strict (h x) (g x)) xs.
Proof.
  intros Hprep. revert w. induction xs as [|x xs IH]; intros w; [done|].
  rewrite run_for_each_cons.
  destruct (run_load_one (g x) (h x) strict (prep x w)) as (w1 & Hrun & _ & Hshape).
  rewrite Hrun, (file_loadable_same_shapes w (prep x w)) by apply Hprep.
  cbn [forallb].
  destruct (file_loadable w strict (h x) (g x)); cbv beta iota; cbn [andb].
  - rewrite IH. apply forallb_file_loadable_same_shapes.
    eapply same_shapes_trans; [apply Hprep|exact Hshape].
  - by destruct (files (prep x w) !! h x) as [[]|].
Qed.

Lemma file_loadable_strict (w : world) (path : string) (net : module) :
  file_loadable w true path net = true ↔
  match files w !! path with
  | None => True
  | Some Corrupt => False
  | Some (Pickled sd) =>
      entries_ok w (unwrap net) sd = true ∧
      missing_keys (unwrap net) sd = [] ∧ unexpected_keys (unwrap net) sd = []
  end.
Proof.
  unfold file_loadable. destruct (files w !! path) as [[sd|]|]; [|done|done].
  unfold loadable, keys_match. cbn [negb orb].
  rewrite andb_true_iff, bool_decide_eq_true. tauto.
Qed.

Lemma file_loadable_loose (w : world) (path : string) (net : module) :
  file_loadable w false path net = true ↔
  match files w !! path with
  | None => True
  | Some Corrupt => False
  | Some (Pickled sd) => entries_ok w (unwrap net) sd = true
  end.
Proof.
  unfold file_loadable. destruct (files w !! path) as [[sd|]|]; [|done|done].
  unfold loadable. cbn [negb orb]. by rewrite andb_true_r.
Qed.

(** C5. [load_subnetworks] loads strictly and [load_networks] does not.
    With the subnetworks, the registry and both directories given:
    [load_subnetworks] returns exactly when every file it finds for a
    wanted subnetwork can be read, each of its entries for a parameter fits
    the parameter, no key the subnetwork expects is missing from it and it
    has no key the subnetwork does not expect; [load_networks] returns
    exactly when every file it finds for a registered network can be read
    and each of its entries for a parameter fits, whatever keys are missing
    or in excess.  A run that returns has called [load_state_dict] with the
    content of every such file, with [strict=True] in [load_subnetworks]
    and [strict=False] in [load_networks], and no run of either makes a
    call with the other value. *)
Theorem load_strictness
    (self : BaseModel) (epoch : pyval) (names : option (list string))
    (resume_dir : option string) (w : world)
    (subnets : list (string * module)) (nets : list module) (d d' : string) :
  subnetworks self = Some subnets →
  resume_dir_or self resume_dir = Some d →
  get_networks self = Ok nets →
  opt_resume_dir (opt self) = Some d' →
  let wanted := filter (λ x : string * module, x.1 ∈ default (subnets.*1) names) subnets in
  let registered := zip (model_names self) nets in
  let subnet_path := λ x : string * module,
                       os_path_join d (py_str epoch +:+ "_subnet_" +:+ x.1 +:+ ".pth") in
  let net_path := λ x : pyval * module,
                    os_path_join d' (py_str epoch +:+ "_net_" +:+ py_str x.1 +:+ ".pth") in
  (returns (load_subnetworks self epoch names resume_dir w) = true ↔
   ∀ x, x ∈ wanted →
     match files w !! subnet_path x with
     | None => True
     | Some Corrupt => False
     | Some (Pickled sd) =>
         entries_ok w (unwrap x.2) sd = true ∧
         missing_keys (unwrap x.2) sd = [] ∧ unexpected_keys (unwrap x.2) sd = []
     end) ∧
  (returns (load_networks self epoch w) = true ↔
   ∀ x, x ∈ registered →
     match files w !! net_path x with
     | None => True
     | Some Corrupt => False
     | Some (Pickled sd) => entries_ok w (unwrap x.2) sd = true
     end) ∧
  (∀ x sd, x ∈ wanted → files w !! subnet_path x = Some (Pickled sd) →
     returns (load_subnetworks self epoch names resume_dir w) = true →
     LoadStateDict (unwrap x.2) sd true
       ∈ run_events (load_subnetworks self epoch names resume_dir) w) ∧
  (∀ x sd, x ∈ registered → files w !! net_path x = Some (Pickled sd) →
     returns (load_networks self epoch w) = true →
     LoadStateDict (unwrap x.2) sd false ∈ run_events (load_networks self epoch) w) ∧
  (∀ net sd strict,
     LoadStateDict net sd strict
       ∈ run_events (load_subnetworks self epoch names resume_dir) w →
     strict = true) ∧
  (∀ net sd strict,
     LoadStateDict net sd strict ∈ run_events (load_networks self epoch) w →
     strict = false).
Proof.
  intros Hsub Hdir Hnets Hdir' wanted registered subnet_path net_path.
  assert (Hret_sub : returns (load_subnetworks self epoch names resume_dir w)
                     = forallb (λ x, file_loadable w true (subnet_path x) x.2) wanted).
  { rewrite (run_load_subnetworks self epoch names resume_dir w subnets d Hsub Hdir).
    apply (load_loop_returns snd subnet_path (λ _ w, w) true wanted w).
    intros _ w0. apply same_shapes_refl. }
  assert (Hrun_net : load_networks self epoch w
                     = for_each registered
                         (λ x w, load_one x.2 (net_path x) false
                                   (add_event (Print (MsgLoading x.1)) w)) w).
  { rewrite (run_load_networks self epoch w nets Hnets), Hdir'. reflexivity. }
  assert (Hret_net : returns (load_networks self epoch w)
                     = forallb (λ x, file_loadable w false (net_path x) x.2) registered).
  { rewrite Hrun_net.
    apply (load_loop_returns snd net_path (λ x, add_event (Print (MsgLoading x.1)))
             false registered w).
    intros x w0. apply same_shapes_add_event. }
  split_and!.
  - rewrite Hret_sub, forallb_true_iff.
    split; intros Hall x Hx; by apply file_loadable_strict, Hall.
  - rewrite Hret_net, forallb_true_iff.
    split; intros Hall x Hx; by apply file_loadable_loose, Hall.
  - intros x sd Hx Hfile Hret. rewrite Hret_sub in Hret.
    destruct (load_subnetworks_run self epoch names resume_dir w subnets d Hsub Hdir Hret)
      as [_ ->].
    apply list_elem_of_bind. exists x. split; [|done].
    unfold load_events.
    change (os_path_join d (subnet_filename epoch x.1)) with (subnet_path x).
    rewrite Hfile. apply list_elem_of_further, list_elem_of_here.
  - intros x sd Hx Hfile Hret. rewrite Hret_net in Hret.
    destruct (load_networks_loop d' epoch registered w Hret) as (_ & Htr & _).
    assert (Hevs : run_events (load_networks self epoch) w
                   = registered ≫= (λ x, load_network_events w (net_path x) x)).
    { apply run_events_eq. rewrite Hrun_net. exact Htr. }
    rewrite Hevs. apply list_elem_of_bind. exists x. split; [|done].
    unfold load_network_events, load_events. rewrite Hfile.
    apply list_elem_of_further, list_elem_of_further, list_elem_of_here.
  - intros net sd strict Hin.
    pose proof (run_events_emits _ _ w
                  (emits_load_subnetworks self epoch names resume_dir)) as Hall.
    rewrite Forall_forall in Hall. exact (Hall _ Hin).
  - intros net sd strict Hin.
    pose proof (run_events_emits _ _ w (emits_load_networks self epoch)) as Hall.
    rewrite Forall_forall in Hall. exact (Hall _ Hin).
Qed.

(** The checkpoint with one key more than the network has parameters:
    [load_networks] loads it and returns, [load_subnetworks] raises. *)
Lemma load_strictness_witness :
  returns (load_networks demo_model (VStr "latest") demo_world_extra_key) = true ∧
  LoadStateDict demo_net_a demo_checkpoint false
    ∈ run_events (load_networks demo_model (VStr "latest")) demo_world_extra_key ∧
  returns (load_subnetworks demo_model (VStr "latest") None None demo_world_extra_key)
  = false.
Proof.
  pose proof (load_strictness demo_model (VStr "latest") None None demo_world_extra_key
                [("a", demo_net_a); ("b", demo_net_b)] [demo_net_a] "resume" "resume"
                eq_refl eq_refl) as Hload.
  destruct Hload as (Hstrict & Hloose & _ & Hcalled & _); [vm_compute; reflexivity|done|].
  assert (Hret : returns (load_networks demo_model (VStr "latest") demo_world_extra_key)
                 = true).
  { apply Hloose. intros x Hx. apply list_elem_of_singleton in Hx as ->.
    vm_compute. reflexivity. }
  split_and!.
  - exact Hret.
  - apply (Hcalled (VStr "a", demo_net_a) demo_checkpoint);
      [apply list_elem_of_here|vm_compute; reflexivity|exact Hret].
  - destruct (returns (load_subnetworks demo_model (VStr "latest") None None
                         demo_world_extra_key)) eqn:Hsub; [|reflexivity].
    pose proof (proj1 Hstrict eq_refl ("a", demo_net_a) (list_elem_of_here _ _)) as Ha.
    vm_compute in Ha. destruct Ha as (_ & _ & Hunexpected). discriminate.
Defined.
